(** * IP manager: addresses, prefix containment and the CSV-backed store

    A shallow embedding of [preAssignment/ip_manager.py].  The program is
    read with the semantics of CPython 3 (3.7 or later, where a [dict]
    iterates in insertion order) on a POSIX system:

    - [str] values are modelled as [string], a character standing for the
      code point of its number (text of code points below 256, which the
      encoding of the files is taken to represent);
    - Python integers are unbounded, hence [Z];
    - exceptions are an explicit [result] type;
    - the [dict] held by the manager is an association list kept in
      insertion order;
    - the file system, the text layer of [open] and the standard output are
      an explicit [World] threaded through the manager's operations.

    Library routines the program calls ([socket.inet_aton], [int],
    [csv.writer], [csv.reader], text-mode files) are not part of the
    repository; each is modelled below after its documentation and after
    what CPython 3.11 and the C library (glibc) do: the csv reader after the
    states of CPython's implementation, [socket.inet_aton] after the C
    library's [inet_aton], which stops reading at the first blank, and
    [int] with the interpreter's default limit of 4300 digits. *)

From Stdlib Require Import ZArith Lia Ascii String List Bool.
From stdpp Require Import base option gmap strings pretty.
Import ListNotations.

Local Open Scope string_scope.
Local Open Scope Z_scope.

(** ** Exceptions and results *)

Inductive exn : Type :=
| InvalidAddressFormat  (* raised by socket.inet_aton: OSError for a text that
                           is no address, ValueError for a text with a NUL *)
| InvalidPrefixFormat   (* ValueError raised by int(prefix) *)
| NegativeShiftCount    (* ValueError raised by >> with a negative count *)
| StorageLoadError      (* ValueError raised by unpacking a row into two names *)
| CsvError              (* csv.Error raised by the reader *)
| IOFailure (path : string). (* OSError raised by open *)

Inductive result (A : Type) : Type :=
| Ok (a : A)
| Raise (e : exn).
Arguments Ok {A} a.
Arguments Raise {A} e.

#[global] Instance result_ret : MRet result := fun A a => Ok a.

#[global] Instance result_bind : MBind result := fun A B k r =>
  match r with
  | Ok a => k a
  | Raise e => Raise e
  end.

(** ** Strings *)

Definition quotechar : ascii := "034".
Definition LF : ascii := "010".
Definition CR : ascii := "013".
Definition NUL : ascii := "000".

(** [s.split(sep)] for a one-character separator. *)
Fixpoint split (sep : ascii) (s : string) : list string :=
  match s with
  | EmptyString => [EmptyString]
  | String c r =>
      if Ascii.eqb c sep then EmptyString :: split sep r
      else match split sep r with
           | t :: ts => String c t :: ts
           | [] => [String c EmptyString]
           end
  end.

(** [sep.join(l)]. *)
Fixpoint join (sep : string) (l : list string) : string :=
  match l with
  | [] => EmptyString
  | [t] => t
  | t :: ts => t ++ sep ++ join sep ts
  end.

(** [sep in s] together with [s.split(sep, 1)]: [None] when [sep] does not
    occur, otherwise the text before and after its first occurrence. *)
Fixpoint split_once (sep : ascii) (s : string) : option (string * string) :=
  match s with
  | EmptyString => None
  | String c r =>
      if Ascii.eqb c sep then Some (EmptyString, r)
      else match split_once sep r with
           | Some (a, b) => Some (String c a, b)
           | None => None
           end
  end.

(** [c in s] for a character [c]. *)
Fixpoint has_char (c : ascii) (s : string) : bool :=
  match s with
  | EmptyString => false
  | String x r => Ascii.eqb x c || has_char c r
  end.

(** [sub in s] for strings. *)
Fixpoint str_contains (sub s : string) : bool :=
  String.prefix sub s ||
  match s with
  | EmptyString => false
  | String _ r => str_contains sub r
  end.

(** ** Numerals *)

Definition digit_val (c : ascii) : option Z :=
  let n := Z.of_nat (nat_of_ascii c) in
  if (48 <=? n) && (n <=? 57) then Some (n - 48)
  else if (97 <=? n) && (n <=? 102) then Some (n - 87)
  else if (65 <=? n) && (n <=? 70) then Some (n - 55)
  else None.

Fixpoint parse_digits (base acc : Z) (s : string) : option Z :=
  match s with
  | EmptyString => Some acc
  | String c r =>
      match digit_val c with
      | Some d => if d <? base then parse_digits base (acc * base + d) r else None
      | None => None
      end
  end.

(** A whole token read as [strtoul(_, _, 0)] reads it: [0x] or [0X] starts a
    hexadecimal numeral, a leading [0] an octal one, any other digit a
    decimal one.  [None] when the token is not entirely such a numeral. *)
Definition c_number (t : string) : option Z :=
  match t with
  | EmptyString => None
  | String c r =>
      if Ascii.eqb c "0" then
        match r with
        | EmptyString => Some 0
        | String x h =>
            if Ascii.eqb x "x" || Ascii.eqb x "X" then
              match h with
              | EmptyString => None
              | _ => parse_digits 16 0 h
              end
            else parse_digits 8 0 r
        end
      else parse_digits 10 0 t
  end.

(** The blanks of C's [isspace] among the ASCII characters: space, tab,
    line feed, vertical tab, form feed and carriage return. *)
Definition is_c_space (c : ascii) : bool :=
  let n := nat_of_ascii c in
  ((9 <=? n) && (n <=? 13) || (n =? 32))%nat.

(** The text before the first blank. *)
Fixpoint before_blank (s : string) : string :=
  match s with
  | EmptyString => EmptyString
  | String c r => if is_c_space c then EmptyString else String c (before_blank r)
  end.

(** [socket.inet_aton].  The text is handed to the C library as a C string,
    which a NUL character in it prevents.  The C library's [inet_aton] reads
    one to four dot-separated numerals, each as [strtoul] reads it; every
    part but the last is one byte, the last part fills the remaining bytes.
    It stops at the end of the text or at a blank, and does not look at what
    follows the blank; any other character where a numeral or a dot is
    expected makes it fail, and so does a numeral above [0xffffffff].  The
    result is the four bytes of the address, first byte first. *)
Definition inet_aton (s : string) : option (list Z) :=
  let byte n := if n <=? 255 then Some n else None in
  if has_char NUL s then None else
  match split "." (before_blank s) with
  | [a] =>
      n ← c_number a;
      if n <=? 4294967295
      then Some [Z.shiftr n 24; Z.land (Z.shiftr n 16) 255; Z.land (Z.shiftr n 8) 255; Z.land n 255]
      else None
  | [a; b] =>
      x ← c_number a ≫= byte; n ← c_number b;
      if n <=? 16777215
      then Some [x; Z.shiftr n 16; Z.land (Z.shiftr n 8) 255; Z.land n 255]
      else None
  | [a; b; c] =>
      x ← c_number a ≫= byte; y ← c_number b ≫= byte; n ← c_number c;
      if n <=? 65535 then Some [x; y; Z.shiftr n 8; Z.land n 255] else None
  | [a; b; c; d] =>
      x ← c_number a ≫= byte; y ← c_number b ≫= byte;
      z ← c_number c ≫= byte; w ← c_number d ≫= byte;
      Some [x; y; z; w]
  | _ => None
  end.

(** [struct.unpack('>I', b)[0]]: the big-endian reading of the bytes. *)
Definition unpack_be (b : list Z) : Z :=
  fold_left (fun acc x => acc * 256 + x) b 0.

(** The characters [int] strips around a numeral. *)
Definition is_space (c : ascii) : bool :=
  let n := nat_of_ascii c in
  ((9 <=? n) && (n <=? 13) || (n =? 32) || (n =? 133) || (n =? 160))%nat.

Fixpoint lstrip (s : string) : string :=
  match s with
  | EmptyString => EmptyString
  | String c r => if is_space c then lstrip r else s
  end.

Fixpoint rstrip (s : string) : string :=
  match s with
  | EmptyString => EmptyString
  | String c r =>
      match rstrip r with
      | EmptyString => if is_space c then EmptyString else String c EmptyString
      | r' => String c r'
      end
  end.

(** Decimal digits with single underscores allowed between digits. *)
Fixpoint int_digits (acc : Z) (after_digit : bool) (s : string) : option Z :=
  match s with
  | EmptyString => if after_digit then Some acc else None
  | String c r =>
      if Ascii.eqb c "_" then
        if after_digit then int_digits acc false r else None
      else
        match digit_val c with
        | Some d => if d <? 10 then int_digits (acc * 10 + d) true r else None
        | None => None
        end
  end.

(** The number of decimal digits in a text. *)
Fixpoint count_digits (s : string) : Z :=
  match s with
  | EmptyString => 0
  | String c r =>
      match digit_val c with
      | Some d => if d <? 10 then 1 + count_digits r else count_digits r
      | None => count_digits r
      end
  end.

(** [sys.get_int_max_str_digits()], as the interpreter starts. *)
Definition max_str_digits : Z := 4300.

(** A decimal numeral of at most [max_str_digits] digits. *)
Definition int_numeral (s : string) : option Z :=
  if max_str_digits <? count_digits s then None else int_digits 0 false s.

(** [int(s)] for a string [s]: surrounding blanks, an optional sign, decimal
    digits, no more of them than the interpreter converts. *)
Definition py_int (s : string) : option Z :=
  match rstrip (lstrip s) with
  | String c r =>
      if Ascii.eqb c "-" then Z.opp <$> int_numeral r
      else if Ascii.eqb c "+" then int_numeral r
      else int_numeral (String c r)
  | EmptyString => None
  end.

(** [a >> n] on Python integers. *)
Definition py_rshift (a n : Z) : result Z :=
  if n <? 0 then Raise NegativeShiftCount else Ok (Z.shiftr a n).

(** ** class Address *)

Module Address.

Record t : Type := mk {
  addr : string;
  note : string;
  value : Z;
  prefix : Z;
  cidr : string
}.

Definition _normalize_addr (addr : string) : string :=
  let tokens := split "." addr in
  join "." (tokens ++ repeat "0" (4 - List.length tokens)%nat).

(** The value and prefix tokens of an address text: split at the first
    slash, the prefix token defaulting to [32]. *)
Definition split_prefix (addr : string) : string * string :=
  match split_once "/" addr with
  | Some (v, p) => (v, p)
  | None => (addr, "32")
  end.

Definition __init__ (addr note : string) : result t :=
  let '(value, prefix) := split_prefix addr in
  let cidr := value ++ "/" ++ prefix in
  let value := _normalize_addr value in
  match inet_aton value with
  | None => Raise InvalidAddressFormat
  | Some bytes =>
      match py_int prefix with
      | None => Raise InvalidPrefixFormat
      | Some p => Ok (mk addr note (unpack_be bytes) p cidr)
      end
  end.

(** The values [__contains__] can be handed: an [Address], or something
    else, for which [isinstance(other, Address)] is false. *)
Inductive pyobj : Type :=
| PyAddress (a : t)
| PyStr (s : string)
| PyNone.

Definition __contains__ (self : t) (other : pyobj) : result bool :=
  match other with
  | PyAddress other =>
      self_net ← py_rshift (value self) (32 - prefix self);
      other_net ← py_rshift (value other) (32 - prefix self);
      Ok ((self_net =? other_net) && (prefix self <=? prefix other))
  | _ => Ok false
  end.

End Address.

(** ** The insertion-ordered dict *)

Definition dict (V : Type) : Type := list (string * V).

Fixpoint dict_get {V} (d : dict V) (k : string) : option V :=
  match d with
  | [] => None
  | (k', v) :: r => if String.eqb k' k then Some v else dict_get r k
  end.

(** [d[k] = v]: a present key keeps its position, a new key goes last. *)
Fixpoint dict_set {V} (d : dict V) (k : string) (v : V) : dict V :=
  match d with
  | [] => [(k, v)]
  | (k', v') :: r =>
      if String.eqb k' k then (k', v) :: r else (k', v') :: dict_set r k v
  end.

Definition dict_values {V} (d : dict V) : list V := map snd d.

(** ** The csv module, excel dialect *)

Definition delimiter : ascii := ",".
Definition lineterminator : string := String CR (String LF EmptyString).
Definition field_limit : Z := 131072.

Fixpoint escape_quotes (s : string) : string :=
  match s with
  | EmptyString => EmptyString
  | String c r =>
      if Ascii.eqb c quotechar
      then String quotechar (String quotechar (escape_quotes r))
      else String c (escape_quotes r)
  end.

Definition quote_field (f : string) : string :=
  String quotechar (escape_quotes f ++ String quotechar EmptyString).

(** [writerow(row)] of a writer made with [quoting=csv.QUOTE_ALL] and the
    double quote as quote character: the text handed to [fp.write]. *)
Definition writerow (row : list string) : string :=
  join (String delimiter EmptyString) (map quote_field row) ++ lineterminator.

Inductive pstate : Type :=
| START_RECORD | START_FIELD | IN_FIELD
| IN_QUOTED_FIELD | QUOTE_IN_QUOTED_FIELD | EAT_CRNL.

Record reader : Type := mkReader {
  state : pstate;
  fields : list string;
  field : string
}.

Definition parse_reset : reader := mkReader START_RECORD [] EmptyString.

Definition set_state (r : reader) (s : pstate) : reader :=
  mkReader s (fields r) (field r).

Definition parse_save_field (r : reader) : reader :=
  mkReader (state r) (fields r ++ [field r]) EmptyString.

Definition parse_add_char (r : reader) (c : ascii) : result reader :=
  if field_limit <=? Z.of_nat (String.length (field r)) then Raise CsvError
  else Ok (mkReader (state r) (fields r) (field r ++ String c EmptyString)).

Definition is_nl (c : ascii) : bool := Ascii.eqb c LF || Ascii.eqb c CR.

(** One step of the reader; [None] is the end-of-line marker the reader
    feeds itself after each line.  The dialect has no escape character, so
    the states that follow one do not occur. *)
Definition parse_process_char (r : reader) (c : option ascii) : result reader :=
  let start_field (r : reader) : result reader :=
    match c with
    | None => Ok (set_state (parse_save_field r) START_RECORD)
    | Some c =>
        if is_nl c then Ok (set_state (parse_save_field r) EAT_CRNL)
        else if Ascii.eqb c quotechar then Ok (set_state r IN_QUOTED_FIELD)
        else if Ascii.eqb c delimiter then Ok (parse_save_field r)
        else r' ← parse_add_char r c; Ok (set_state r' IN_FIELD)
    end in
  match state r with
  | START_RECORD =>
      match c with
      | None => Ok r
      | Some c' =>
          if is_nl c' then Ok (set_state r EAT_CRNL)
          else start_field (set_state r START_FIELD)
      end
  | START_FIELD => start_field r
  | IN_FIELD =>
      match c with
      | None => Ok (set_state (parse_save_field r) START_RECORD)
      | Some c =>
          if is_nl c then Ok (set_state (parse_save_field r) EAT_CRNL)
          else if Ascii.eqb c delimiter then Ok (set_state (parse_save_field r) START_FIELD)
          else parse_add_char r c
      end
  | IN_QUOTED_FIELD =>
      match c with
      | None => Ok r
      | Some c =>
          if Ascii.eqb c quotechar then Ok (set_state r QUOTE_IN_QUOTED_FIELD)
          else parse_add_char r c
      end
  | QUOTE_IN_QUOTED_FIELD =>
      match c with
      | None => Ok (set_state (parse_save_field r) START_RECORD)
      | Some c =>
          if Ascii.eqb c quotechar
          then r' ← parse_add_char r c; Ok (set_state r' IN_QUOTED_FIELD)
          else if Ascii.eqb c delimiter then Ok (set_state (parse_save_field r) START_FIELD)
          else if is_nl c then Ok (set_state (parse_save_field r) EAT_CRNL)
          else r' ← parse_add_char r c; Ok (set_state r' IN_FIELD)
      end
  | EAT_CRNL =>
      match c with
      | None => Ok (set_state r START_RECORD)
      | Some c => if is_nl c then Ok r else Raise CsvError
      end
  end.

Fixpoint feed (r : reader) (line : string) : result reader :=
  match line with
  | EmptyString => Ok r
  | String c rest => r' ← parse_process_char r (Some c); feed r' rest
  end.

Definition is_start_record (s : pstate) : bool :=
  match s with START_RECORD => true | _ => false end.

Definition is_in_quoted (s : pstate) : bool :=
  match s with IN_QUOTED_FIELD => true | _ => false end.

(** What iterating a generator yields: rows, then a normal end or an
    exception. *)
Inductive rows : Type :=
| Done
| Row (row : list string) (rest : rows)
| Fail (e : exn).

(** [csv.reader(lines)], iterated to the end.  [r] is the reader between two
    lines; a record ends when a line leaves the reader in [START_RECORD];
    input that ends inside a record yields what has been read. *)
Fixpoint csv_reader_from (r : reader) (lines : list string) : rows :=
  match lines with
  | [] =>
      if negb (String.eqb (field r) EmptyString) || is_in_quoted (state r)
      then Row (fields (parse_save_field r)) Done
      else Done
  | l :: ls =>
      match r' ← feed r l; parse_process_char r' None with
      | Raise e => Fail e
      | Ok r' =>
          if is_start_record (state r')
          then Row (fields r') (csv_reader_from parse_reset ls)
          else csv_reader_from r' ls
      end
  end.

Definition csv_reader (lines : list string) : rows :=
  csv_reader_from parse_reset lines.

(** ** Files, text mode *)

(** Reading in text mode with the default [newline=None]: every [\r\n] and
    every lone [\r] arrives as [\n].  [after_cr] records that the previous
    character was a [\r]. *)
Fixpoint universal_newlines (after_cr : bool) (s : string) : string :=
  match s with
  | EmptyString => EmptyString
  | String c r =>
      if Ascii.eqb c CR then String LF (universal_newlines true r)
      else if Ascii.eqb c LF then
        if after_cr then universal_newlines false r
        else String LF (universal_newlines false r)
      else String c (universal_newlines false r)
  end.

(** Iterating a text file: the lines, each with its [\n]. *)
Fixpoint readlines_from (cur : string) (s : string) : list string :=
  match s with
  | EmptyString => if String.eqb cur EmptyString then [] else [cur]
  | String c r =>
      if Ascii.eqb c LF then (cur ++ String LF EmptyString) :: readlines_from EmptyString r
      else readlines_from (cur ++ String c EmptyString) r
  end.

Definition readlines (s : string) : list string := readlines_from EmptyString s.

(** The part of the environment the program touches: the files by path, the
    paths that cannot be opened for appending, and what has been printed. *)
Record World : Type := mkWorld {
  files : gmap string string;
  denied : gset string;
  stdout : list string
}.

Definition print (w : World) (line : string) : World :=
  mkWorld (files w) (denied w) (stdout w ++ [line]).

(** [open(fn, 'at')], one [write] of [data], and the close.  On POSIX the
    text layer writes [\n] as it is.  [None]: the open raises. *)
Definition append_file (w : World) (fn data : string) : option World :=
  if decide (fn ∈ denied w) then None
  else Some (mkWorld (<[fn := default EmptyString (files w !! fn) ++ data]> (files w))
                     (denied w) (stdout w)).

(** [open(fn, 'rt')] iterated: the lines of the file, or [None] when there
    is no such file. *)
Definition read_file (w : World) (fn : string) : option (list string) :=
  content ← files w !! fn; Some (readlines (universal_newlines false content)).

Definition skip_message (address : string) : string :=
  "Skip insert: Address '" ++ address ++ "' already exists.".

(** What [print(e)] shows for the error of a refused [open]. *)
Definition str_of_error (fn : string) : string :=
  "[Errno 13] Permission denied: '" ++ fn ++ "'".

(** ** class IPManager *)

Module IPManager.

Record t : Type := mk {
  _storage_fn : string;
  _storage : dict Address.t
}.

(** The body of the loop in [_load_storage], over the rows the reader
    yields. *)
Fixpoint load_rows (rs : rows) (storage : dict Address.t) : result (dict Address.t) :=
  match rs with
  | Done => Ok storage
  | Fail e => Raise e
  | Row row rest =>
      match row with
      | [address; note] =>
          a ← Address.__init__ address note;
          load_rows rest (dict_set storage address a)
      | _ => Raise StorageLoadError
      end
  end.

Definition _load_storage (storage_fn : string) (w : World) : result (dict Address.t) :=
  match read_file w storage_fn with
  | None => Raise (IOFailure storage_fn)
  | Some lines => load_rows (csv_reader lines) []
  end.

Definition __init__ (storage_fn : string) (w : World) : World * result t :=
  match append_file w storage_fn EmptyString with
  | None => (w, Raise (IOFailure storage_fn))
  | Some w' => (w', storage ← _load_storage storage_fn w'; Ok (mk storage_fn storage))
  end.

Definition insert (self : t) (address note : string) (w : World) : World * result t :=
  match dict_get (_storage self) address with
  | Some _ =>
      (print w (skip_message address), Ok self)
  | None =>
      match append_file w (_storage_fn self) (writerow [address; note]) with
      | None => (print w (str_of_error (_storage_fn self)), Ok self)
      | Some w' =>
          (w', a ← Address.__init__ address note;
               Ok (mk (_storage_fn self) (dict_set (_storage self) address a)))
      end
  end.

Definition lookup (self : t) (address : string) : option Address.t :=
  dict_get (_storage self) address.

(** The comprehension [[addr for addr in values if addr in cidr]]. *)
Fixpoint select_in (cidr : Address.t) (values : list Address.t) : result (list Address.t) :=
  match values with
  | [] => Ok []
  | addr :: rest =>
      b ← Address.__contains__ cidr (Address.PyAddress addr);
      l ← select_in cidr rest;
      Ok (if b : bool then addr :: l else l)
  end.

Definition addrs_by_cidr (self : t) (cidr : string) : result (list Address.t) :=
  cidr ← Address.__init__ cidr EmptyString;
  select_in cidr (dict_values (_storage self)).

Definition addrs_by_note (self : t) (note : string) : list Address.t :=
  filter (fun record => str_contains note (Address.note record) = true)
         (dict_values (_storage self)).

End IPManager.

(** * Vocabulary of the properties *)

(** ** Text predicates *)

(** [sub] occurs in [s]: the literal, case-sensitive substring relation. *)
Definition substring_of (sub s : string) : Prop :=
  exists pre post, s = pre ++ sub ++ post.

(** ** Addresses *)

Definition is_byte (n : Z) : Prop := 0 <= n <= 255.

(** The character [c] is a digit, and [d] is what it stands for: [0] to
    [9], and [a] to [f] in either case for ten to fifteen. *)
Definition digit_of (c : ascii) (d : Z) : Prop :=
  let n := Z.of_nat (nat_of_ascii c) in
  (48 <= n <= 57 /\ d = n - 48) \/
  (97 <= n <= 102 /\ d = n - 87) \/
  (65 <= n <= 70 /\ d = n - 55).

(** Positional notation: every character of the text is a digit below
    [base], and the text denotes [n], most significant digit first. *)
Inductive digits (base : Z) : string -> Z -> Prop :=
| digits_nil : digits base "" 0
| digits_cons c d r n :
    digit_of c d -> d < base -> digits base r n ->
    digits base (String c r) (d * base ^ Z.of_nat (String.length r) + n).

(** The words of the specification: the text decomposes into exactly four
    integers, each in [0, 255].  An integer is one or more decimal digits,
    read in base ten. *)
Definition decimal (t : string) (n : Z) : Prop :=
  t <> "" /\ digits 10 t n.

Definition four_integers (s : string) : Prop :=
  exists t1 t2 t3 t4 n1 n2 n3 n4,
    s = t1 ++ "." ++ t2 ++ "." ++ t3 ++ "." ++ t4 /\
    decimal t1 n1 /\ decimal t2 n2 /\ decimal t3 n3 /\ decimal t4 n4 /\
    is_byte n1 /\ is_byte n2 /\ is_byte n3 /\ is_byte n4.

(** The numerals of C: decimal when the first digit is not [0], octal
    after a leading [0], hexadecimal after [0x] or [0X]. *)
Inductive numeral : string -> Z -> Prop :=
| numeral_dec c r n :
    c <> "0"%char -> digits 10 (String c r) n -> numeral (String c r) n
| numeral_oct r n :
    digits 8 r n -> numeral (String "0" r) n
| numeral_hex x c h n :
    x = "x"%char \/ x = "X"%char -> digits 16 (String c h) n ->
    numeral (String "0" (String x (String c h))) n.

(** One to four numbers that fill four bytes: each but the last is one
    byte, the last has the bytes that are left. *)
Definition fits_bytes (ns : list Z) : Prop :=
  match ns with
  | [n] => n <= 4294967295
  | [a; n] => a <= 255 /\ n <= 16777215
  | [a; b; n] => a <= 255 /\ b <= 255 /\ n <= 65535
  | [a; b; c; d] => a <= 255 /\ b <= 255 /\ c <= 255 /\ d <= 255
  | _ => False
  end.

(** The six blanks: tab, line feed, vertical tab, form feed, carriage
    return and space. *)
Definition blank (c : ascii) : Prop :=
  In c ["009"; "010"; "011"; "012"; "013"; " "]%char.

(** An address text in the notation of inet(3): no NUL character; one to
    four numerals of C separated by dots that fill four bytes; then the end
    of the text, or a blank and whatever follows it. *)
Definition inet_text (s : string) : Prop :=
  has_char NUL s = false /\
  exists ts ns rest,
    s = join "." ts ++ rest /\
    (rest = "" \/ exists c r, rest = String c r /\ blank c) /\
    Forall2 numeral ts ns /\ fits_bytes ns.

(** The records the constructor can return. *)
Definition constructed (r : Address.t) : Prop :=
  exists a n, Address.__init__ a n = Ok r.

(** Both values, shifted right by [32 - prefix self], come out equal. *)
Definition same_network (self other : Address.t) : Prop :=
  exists n,
    py_rshift (Address.value self) (32 - Address.prefix self) = Ok n /\
    py_rshift (Address.value other) (32 - Address.prefix self) = Ok n.

(** The [k] most significant of the 32 bits of [x] and [y] agree. *)
Definition top_bits_equal (k x y : Z) : Prop :=
  forall i, 32 - k <= i < 32 -> Z.testbit x i = Z.testbit y i.

(** ** Decidable equality of results *)

#[global] Instance exn_eq_dec : EqDecision exn.
Proof. solve_decision. Defined.

#[global] Instance result_eq_dec {A} `{EqDecision A} : EqDecision (result A).
Proof. solve_decision. Defined.

(** ** The script at the end of the module *)

Fixpoint insert_all (self : IPManager.t) (l : list (string * string)) (w : World)
  : World * result IPManager.t :=
  match l with
  | [] => (w, Ok self)
  | (address, note) :: rest =>
      match IPManager.insert self address note w with
      | (w', Ok self') => insert_all self' rest w'
      | (w', Raise e) => (w', Raise e)
      end
  end.

Definition empty_world : World := mkWorld ∅ ∅ [].

(** [IPManager()] on a system without [storage.csv], then the four inserts
    of the script. *)
Definition main : World * result IPManager.t :=
  match IPManager.__init__ "storage.csv" empty_world with
  | (w, Ok ip_manager) =>
      insert_all ip_manager
        [("137.43.4.18", "host"); ("137.43.4.19", "host");
         ("137.43.4.20/32", "host/cidr"); ("137.43/16", "net")] w
  | (w, Raise e) => (w, Raise e)
  end.

Definition main_store : IPManager.t :=
  Eval vm_compute in
    match snd main with
    | Ok m => m
    | Raise _ => IPManager.mk "storage.csv" []
    end.

Definition host18 := Address.mk "137.43.4.18" "host" 2301297682 32 "137.43.4.18/32".
Definition host19 := Address.mk "137.43.4.19" "host" 2301297683 32 "137.43.4.19/32".
Definition host20 := Address.mk "137.43.4.20/32" "host/cidr" 2301297684 32 "137.43.4.20/32".
Definition net16 := Address.mk "137.43/16" "net" 2301296640 16 "137.43/16".

Definition locked_world : World :=
  mkWorld (files (fst main)) {["storage.csv"]} [].

Definition cr_note : string := String "a" (String CR (String "b" EmptyString)).
Definition lf_note : string := String "a" (String LF (String "b" EmptyString)).

(** ** The reader over the text of a file *)

(** What the end of the input yields for a reader between two lines. *)
Definition at_end (r : reader) : rows :=
  if negb (String.eqb (field r) EmptyString) || is_in_quoted (state r)
  then Row (fields (parse_save_field r)) Done
  else Done.

(** What the end of a line yields, [k] being what follows. *)
Definition end_line (r : reader) (k : reader -> rows) : rows :=
  match parse_process_char r None with
  | Raise e => Fail e
  | Ok r' =>
      if is_start_record (state r') then Row (fields r') (k parse_reset) else k r'
  end.

(** The reader over the text of a file, character by character: [r] is the
    reader inside the current line, [mid] tells whether the line has
    characters already. *)
Fixpoint run (r : reader) (mid : bool) (s : string) : rows :=
  match s with
  | EmptyString => if mid then end_line r at_end else at_end r
  | String c s' =>
      match parse_process_char r (Some c) with
      | Raise e => Fail e
      | Ok r1 =>
          if Ascii.eqb c LF then end_line r1 (fun r2 => run r2 false s')
          else run r1 true s'
      end
  end.

(** A field fits when the reader's limit on the length of a field lets it
    through. *)
Definition fits (f : string) : Prop := Z.of_nat (String.length f) <= field_limit.

(** The text of a two-field row, spelled out. *)
Definition row_text (a n : string) (nl rest : string) : string :=
  String quotechar (escape_quotes a ++ String quotechar (String delimiter
    (String quotechar (escape_quotes n ++ String quotechar (nl ++ rest))))).

(** The content of a file to which the rows [l] have been written, and
    the rows a reader finds in it. *)
Fixpoint written (l : list (string * string)) : string :=
  match l with
  | [] => EmptyString
  | (a, n) :: rest => writerow [a; n] ++ written rest
  end.

Definition rows_of (l : list (list string)) : rows := fold_right Row Done l.

Definition as_read (an : string * string) : list string :=
  [universal_newlines false (fst an); universal_newlines false (snd an)].

Definition row_fits (an : string * string) : Prop := fits (fst an) /\ fits (snd an).

(** ** Managers the program can reach *)

(** A manager comes from the constructor, or from an [insert] on a manager
    that returned. *)
Inductive reachable : IPManager.t -> Prop :=
| reach_init fn w w' m :
    IPManager.__init__ fn w = (w', Ok m) -> reachable m
| reach_insert self address note w w' self' :
    reachable self ->
    IPManager.insert self address note w = (w', Ok self') ->
    reachable self'.

(** The keys are pairwise different and every record was made from its
    key. *)
Definition keyed (d : dict Address.t) : Prop :=
  NoDup (map fst d) /\
  Forall (fun kv => exists n, Address.__init__ (fst kv) n = Ok (snd kv)) d.

(** ** The file and the mapping in step *)

(** A row without carriage return whose fields fit the reader. *)
Definition clean (an : string * string) : Prop :=
  has_char CR (fst an) = false /\ has_char CR (snd an) = false /\ row_fits an.

(** The file of the manager holds rows the writer wrote, and loading it
    gives the mapping the manager holds. *)
Definition persisted (self : IPManager.t) (w : World) : Prop :=
  exists old,
    files w !! IPManager._storage_fn self = Some (written old) /\
    Forall row_fits old /\
    IPManager._load_storage (IPManager._storage_fn self) w
    = Ok (IPManager._storage self).

(** ** What a file of written rows loads to *)

(** The note of the last row of [l] whose address is [k]. *)
Fixpoint last_note (l : list (string * string)) (k : string) : option string :=
  match l with
  | [] => None
  | (a, n) :: rest =>
      match last_note rest k with
      | Some x => Some x
      | None => if String.eqb a k then Some n else None
      end
  end.

Definition to_option {A} (r : result A) : option A :=
  match r with
  | Ok a => Some a
  | Raise _ => None
  end.

(** The content of a file to which rows of any number of fields have been
    written. *)
Fixpoint written_rows (l : list (list string)) : string :=
  match l with
  | [] => EmptyString
  | row :: rest => writerow row ++ written_rows rest
  end.

(** What follows the first field of a written row: the other fields, each
    after a delimiter, and the line terminator. *)
Fixpoint row_tail (fs : list string) (nl rest : string) : string :=
  match fs with
  | [] => nl ++ rest
  | f :: fs' =>
      String delimiter (String quotechar
        (escape_quotes f ++ String quotechar (row_tail fs' nl rest)))
  end.

(** A row the loop of [_load_storage] accepts: two fields, the first an
    address the constructor takes. *)
Definition loadable_row (row : list string) : Prop :=
  exists a n r, row = [a; n] /\ Address.__init__ a n = Ok r.

(** ** Address.__str__ *)

(** [str(n)] for an integer is its decimal numeral, which is what [pretty]
    gives; [%s] formats a string as it is. *)
Definition __str__ (self : Address.t) : string :=
  "<Address(addr='" ++ Address.addr self ++ "', prefix='"
  ++ pretty (Address.prefix self) ++ "', note='" ++ Address.note self ++ "')>".

(** ** The script, with what it prints *)

Definition script_rows : list (string * string) :=
  [("137.43.4.18", "host"); ("137.43.4.19", "host");
   ("137.43.4.20/32", "host/cidr"); ("137.43/16", "net")].

(** [print(x)] for the result of a lookup: the text of the record, or of
    [None]. *)
Definition str_of_lookup (o : option Address.t) : string :=
  match o with
  | Some r => __str__ r
  | None => "None"
  end.

(** [for addr in l: print(addr)]. *)
Definition print_all (w : World) (l : list Address.t) : World :=
  fold_left (fun w r => print w (__str__ r)) l w.

(** The three reports of the script. *)
Definition report (ip_manager : IPManager.t) (w : World) : World * result unit :=
  let w := print w (String LF "Lookup addresses:") in
  let w := print w (str_of_lookup (IPManager.lookup ip_manager "137.43.4.18")) in
  let w := print w (str_of_lookup (IPManager.lookup ip_manager "137.43/16")) in
  let w := print w (String LF "Search addresses by network CIDR:") in
  match IPManager.addrs_by_cidr ip_manager "137.43.4/24" with
  | Raise e => (w, Raise e)
  | Ok l =>
      let w := print_all w l in
      let w := print w (String LF "Search addresses by note:") in
      (print_all w (IPManager.addrs_by_note ip_manager "host"), Ok tt)
  end.

(** The block under [if __name__ == "__main__"], from any state of the
    environment; the manager the script ends with is returned to be looked
    at. *)
Definition script (w : World) : World * result IPManager.t :=
  match IPManager.__init__ "storage.csv" w with
  | (w, Raise e) => (w, Raise e)
  | (w, Ok ip_manager) =>
      match insert_all ip_manager script_rows w with
      | (w, Raise e) => (w, Raise e)
      | (w, Ok ip_manager) =>
          match report ip_manager w with
          | (w, Raise e) => (w, Raise e)
          | (w, Ok _) => (w, Ok ip_manager)
          end
      end
  end.

(** * Properties *)

(** ** Splitting and joining *)

#[local] Arguments String.append !_ _ / : simpl nomatch.

Lemma split_nonempty sep s : split sep s <> [].
Proof.
  destruct s as [|c r]; simpl; [discriminate|].
  destruct (Ascii.eqb c sep); [discriminate|].
  destruct (split sep r); discriminate.
Qed.

Lemma join_cons sep t l :
  l <> [] -> join sep (t :: l) = t ++ sep ++ join sep l.
Proof. destruct l; [congruence | reflexivity]. Qed.

Lemma join_cons1 c t l :
  l <> [] ->
  join (String c EmptyString) (t :: l) = t ++ String c (join (String c EmptyString) l).
Proof. destruct l; [congruence | reflexivity]. Qed.

Lemma join_split sep s : join (String sep EmptyString) (split sep s) = s.
Proof.
  induction s as [|c r IH]; simpl; [reflexivity|].
  destruct (Ascii.eqb_spec c sep) as [->|Hne].
  - rewrite join_cons by apply split_nonempty. rewrite IH. reflexivity.
  - destruct (split sep r) as [|t ts] eqn:E; [now apply split_nonempty in E|].
    destruct ts as [|t' ts]; rewrite <- IH; reflexivity.
Qed.

Lemma split_no_sep sep s : has_char sep s = false -> split sep s = [s].
Proof.
  induction s as [|c r IH]; simpl; [reflexivity|].
  intros H. apply orb_false_iff in H as [Hc Hr].
  rewrite Hc, (IH Hr). reflexivity.
Qed.

Lemma split_app sep t s :
  has_char sep t = false ->
  split sep (t ++ String sep s) = t :: split sep s.
Proof.
  induction t as [|c r IH]; simpl; intros H.
  - now rewrite Ascii.eqb_refl.
  - apply orb_false_iff in H as [Hc Hr]. rewrite Hc, (IH Hr). reflexivity.
Qed.

Lemma split_join sep l :
  l <> [] -> Forall (fun t => has_char sep t = false) l ->
  split sep (join (String sep EmptyString) l) = l.
Proof.
  induction l as [|t l IH]; [congruence|]. intros _ Hall.
  inversion Hall as [|? ? Ht Hl]; subst.
  destruct l as [|t' l].
  - simpl. now apply split_no_sep.
  - rewrite join_cons1 by discriminate.
    rewrite split_app by assumption. f_equal. now apply IH.
Qed.

Lemma split_parts_no_sep sep s :
  Forall (fun t => has_char sep t = false) (split sep s).
Proof.
  induction s as [|c r IH]; simpl.
  - constructor; [reflexivity | constructor].
  - destruct (Ascii.eqb c sep) eqn:Hc.
    + constructor; [reflexivity | assumption].
    + destruct (split sep r) as [|t ts]; simpl.
      * constructor; [simpl; now rewrite Hc | constructor].
      * inversion IH; subst. constructor; [simpl; now rewrite Hc | assumption].
Qed.

Lemma append_nil_r (s : string) : s ++ "" = s.
Proof. induction s; simpl; congruence. Qed.

Lemma append_assoc (a b c : string) : (a ++ b) ++ c = a ++ b ++ c.
Proof. induction a; simpl; congruence. Qed.

Lemma length_append (a b : string) :
  String.length (a ++ b) = (String.length a + String.length b)%nat.
Proof. induction a; simpl; congruence. Qed.

Lemma length_join_app c l m :
  l <> [] -> m <> [] ->
  (String.length (join (String c EmptyString) l)
   < String.length (join (String c EmptyString) (l ++ m)%list))%nat.
Proof.
  intros Hl Hm. induction l as [|t l IH]; [congruence|].
  destruct l as [|t' l].
  - destruct m as [|x m]; [congruence|].
    change ([t] ++ x :: m)%list with (t :: x :: m).
    rewrite (join_cons1 c t (x :: m)) by easy.
    rewrite length_append. simpl. lia.
  - change ((t :: t' :: l) ++ m)%list with (t :: t' :: (l ++ m))%list.
    rewrite (join_cons1 c t (t' :: l)), (join_cons1 c t (t' :: (l ++ m)%list)) by easy.
    rewrite !length_append.
    change (String.length (String c ?x)) with (S (String.length x)).
    assert (t' :: l <> []) as H by easy. specialize (IH H).
    change ((t' :: l) ++ m)%list with (t' :: (l ++ m))%list in IH. lia.
Qed.

Lemma has_char_append c (a b : string) :
  has_char c (a ++ b) = has_char c a || has_char c b.
Proof. induction a as [|x a IH]; simpl; [reflexivity|]. now rewrite IH, orb_assoc. Qed.

Lemma split_parts_no_char c sep s :
  has_char c s = false -> Forall (fun t => has_char c t = false) (split sep s).
Proof.
  induction s as [|x s IH]; simpl; intros H.
  - repeat constructor.
  - apply orb_false_iff in H as [Hx Hs]. specialize (IH Hs).
    destruct (Ascii.eqb x sep).
    + constructor; [reflexivity | assumption].
    + destruct (split sep s) as [|t ts].
      * repeat constructor. simpl. now rewrite Hx.
      * inversion IH; subst. constructor; [simpl; now rewrite Hx | assumption].
Qed.

Lemma join_no_char c sep l :
  Ascii.eqb sep c = false ->
  Forall (fun t => has_char c t = false) l ->
  has_char c (join (String sep "") l) = false.
Proof.
  intros Hsep Hl. induction Hl as [|t l Ht Hl IH]; [reflexivity|].
  destruct l as [|t' l]; [exact Ht|].
  rewrite join_cons1 by discriminate.
  rewrite has_char_append, Ht.
  change (has_char c (String sep ?x)) with (Ascii.eqb sep c || has_char c x).
  now rewrite Hsep, IH.
Qed.

Lemma split_once_spec sep s :
  match split_once sep s with
  | Some (a, b) => s = a ++ String sep b /\ has_char sep a = false
  | None => has_char sep s = false
  end.
Proof.
  induction s as [|c s IH]; simpl; [reflexivity|].
  destruct (Ascii.eqb_spec c sep) as [->|Hne]; [split; reflexivity|].
  apply Ascii.eqb_neq in Hne.
  destruct (split_once sep s) as [[a b]|].
  - destruct IH as [-> Ha]. simpl. rewrite Hne. split; [reflexivity | exact Ha].
  - simpl. exact IH.
Qed.

Lemma split_once_app sep a b :
  has_char sep a = false -> split_once sep (a ++ String sep b) = Some (a, b).
Proof.
  induction a as [|c a IH]; simpl; intros H.
  - now rewrite Ascii.eqb_refl.
  - apply orb_false_iff in H as [Hc Ha]. rewrite Hc, (IH Ha). reflexivity.
Qed.

(** ** Numerals and dotted addresses *)

Lemma digit_val_range c d : digit_val c = Some d -> 0 <= d < 16.
Proof.
  unfold digit_val. intros H.
  repeat match type of H with
  | (if ?b then _ else _) = _ => destruct b eqn:?
  end; inversion H; subst; lia.
Qed.

Lemma parse_digits_nonneg s : forall base acc n,
  0 <= base -> 0 <= acc -> parse_digits base acc s = Some n -> 0 <= n.
Proof.
  induction s as [|c r IH]; simpl; intros base acc n Hb Ha H.
  - inversion H; subst; assumption.
  - destruct (digit_val c) as [d|] eqn:Hd; [|discriminate].
    destruct (d <? base); [|discriminate].
    apply digit_val_range in Hd. eapply IH; [exact Hb | | exact H]. nia.
Qed.

Lemma c_number_nonneg t n : c_number t = Some n -> 0 <= n.
Proof.
  destruct t as [|c r]; [discriminate|]. unfold c_number.
  destruct (Ascii.eqb c "0").
  - destruct r as [|x h]; [intros H; inversion H; lia|].
    destruct (Ascii.eqb x "x" || Ascii.eqb x "X").
    + destruct h; [discriminate|]. apply parse_digits_nonneg; lia.
    + apply parse_digits_nonneg; lia.
  - apply parse_digits_nonneg; lia.
Qed.

(** *** The readers of numerals against positional notation *)

Lemma digit_val_spec c d : digit_val c = Some d <-> digit_of c d.
Proof.
  unfold digit_val, digit_of. cbv zeta.
  destruct (Z.leb_spec 48 (Z.of_nat (nat_of_ascii c)));
    destruct (Z.leb_spec (Z.of_nat (nat_of_ascii c)) 57);
    destruct (Z.leb_spec 97 (Z.of_nat (nat_of_ascii c)));
    destruct (Z.leb_spec (Z.of_nat (nat_of_ascii c)) 102);
    destruct (Z.leb_spec 65 (Z.of_nat (nat_of_ascii c)));
    destruct (Z.leb_spec (Z.of_nat (nat_of_ascii c)) 70);
    simpl;
    (split; [intros E; inversion E; lia | intros E; solve [f_equal; lia | exfalso; lia]]).
Qed.

Lemma parse_digits_spec s : forall base acc m,
  parse_digits base acc s = Some m <->
  exists n, digits base s n /\ m = acc * base ^ Z.of_nat (String.length s) + n.
Proof.
  induction s as [|c r IH]; intros base acc m.
  - simpl. split.
    + intros E. inversion E; subst. exists 0. split; [constructor | lia].
    + intros (n & Hn & ->). inversion Hn; subst. f_equal. lia.
  - change (parse_digits base acc (String c r))
      with (match digit_val c with
            | Some d => if d <? base then parse_digits base (acc * base + d) r else None
            | None => None
            end).
    change (String.length (String c r)) with (S (String.length r)).
    rewrite Nat2Z.inj_succ, Z.pow_succ_r by lia. split.
    + destruct (digit_val c) as [d|] eqn:Hd; [|discriminate].
      destruct (Z.ltb_spec d base) as [Hlt|]; [|discriminate].
      intros E. apply IH in E as (n & Hn & ->).
      apply digit_val_spec in Hd.
      exists (d * base ^ Z.of_nat (String.length r) + n).
      split; [now constructor | ring].
    + intros (n & Hn & ->). inversion Hn as [|c' d r' n' Hd Hlt Hr]; subst.
      apply digit_val_spec in Hd. rewrite Hd.
      destruct (Z.ltb_spec d base); [|lia].
      apply IH. exists n'. split; [assumption | ring].
Qed.

Lemma digit_of_not c d : digit_of c d -> c <> "x"%char /\ c <> "X"%char /\ c <> "_"%char.
Proof.
  intros H. repeat split; intros ->; unfold digit_of in H;
    set (n := Z.of_nat (nat_of_ascii _)) in H; vm_compute in n; subst n; lia.
Qed.

Lemma c_number_spec t n : c_number t = Some n <-> numeral t n.
Proof.
  split.
  - destruct t as [|c r]; [discriminate|]. unfold c_number.
    destruct (Ascii.eqb_spec c "0") as [->|Hc].
    + destruct r as [|x h].
      * intros E. inversion E; subst. apply numeral_oct. constructor.
      * destruct (Ascii.eqb x "x" || Ascii.eqb x "X") eqn:Hx.
        -- destruct h as [|y h']; [discriminate|]. intros E.
           apply parse_digits_spec in E as (m & Hm & ->).
           replace (0 * 16 ^ Z.of_nat (String.length (String y h')) + m) with m by lia.
           apply numeral_hex; [|assumption].
           apply orb_true_iff in Hx as [Hx|Hx]; apply Ascii.eqb_eq in Hx; auto.
        -- intros E. apply parse_digits_spec in E as (m & Hm & ->).
           replace (0 * 8 ^ Z.of_nat (String.length (String x h)) + m) with m by lia.
           now apply numeral_oct.
    + intros E. apply parse_digits_spec in E as (m & Hm & ->).
      replace (0 * 10 ^ Z.of_nat (String.length (String c r)) + m) with m by lia.
      now apply numeral_dec.
  - intros H. destruct H as [c r n Hc Hd | r n Hd | x c h n Hx Hd]; unfold c_number.
    + destruct (Ascii.eqb_spec c "0"); [contradiction|].
      apply parse_digits_spec. exists n. split; [assumption | lia].
    + rewrite Ascii.eqb_refl. destruct r as [|x h].
      * inversion Hd; subst. reflexivity.
      * assert (Ascii.eqb x "x" || Ascii.eqb x "X" = false) as ->.
        { inversion Hd as [|c' d r' n' Hdig _ _]; subst.
          apply digit_of_not in Hdig as (H1 & H2 & _).
          apply orb_false_iff. split; now apply Ascii.eqb_neq. }
        apply parse_digits_spec. exists n. split; [assumption | lia].
    + rewrite Ascii.eqb_refl.
      assert (Ascii.eqb x "x" || Ascii.eqb x "X" = true) as ->.
      { destruct Hx as [->| ->]; reflexivity. }
      apply parse_digits_spec. exists n. split; [assumption | lia].
Qed.

Lemma parse_digits_no_char c s : forall base acc n,
  digit_val c = None ->
  parse_digits base acc s = Some n -> has_char c s = false.
Proof.
  induction s as [|x r IH]; simpl; intros base acc n Hc H; [reflexivity|].
  destruct (digit_val x) as [d|] eqn:Hd; [|discriminate].
  destruct (d <? base); [|discriminate].
  destruct (Ascii.eqb_spec x c) as [->|_]; [congruence|]. simpl. eauto.
Qed.

(** A numeral holds digits only, and the letter that marks a hexadecimal
    one. *)
Lemma c_number_no_char c t n :
  digit_val c = None -> c <> "x"%char -> c <> "X"%char ->
  c_number t = Some n -> has_char c t = false.
Proof.
  intros Hc Hx HX. destruct t as [|a r]; [discriminate|]. unfold c_number.
  destruct (Ascii.eqb_spec a "0") as [->|Ha].
  - assert (Ascii.eqb "0" c = false) as H0.
    { apply Ascii.eqb_neq. intros <-. discriminate. }
    destruct r as [|x h];
      [intros _; change (has_char c "0") with (Ascii.eqb "0" c || false); now rewrite H0|].
    destruct (Ascii.eqb x "x" || Ascii.eqb x "X") eqn:Ex.
    + destruct h as [|y h']; [discriminate|]. intros H.
      apply (parse_digits_no_char c) in H; [|assumption].
      change (has_char c (String "0" (String x (String y h'))))
        with (Ascii.eqb "0" c || (Ascii.eqb x c || has_char c (String y h'))).
      rewrite H0, H, orb_false_r. simpl. apply Ascii.eqb_neq.
      apply orb_true_iff in Ex as [Ex|Ex]; apply Ascii.eqb_eq in Ex; subst; congruence.
    + intros H. apply (parse_digits_no_char c) in H; [|assumption].
      change (has_char c (String "0" (String x h)))
        with (Ascii.eqb "0" c || has_char c (String x h)).
      now rewrite H0, H.
  - intros H. apply (parse_digits_no_char c) in H; assumption.
Qed.

Lemma is_c_space_blank c : is_c_space c = true <-> blank c.
Proof.
  unfold blank.
  destruct c as [[] [] [] [] [] [] [] []]; vm_compute;
    (split; [intros E; first [discriminate E | tauto]
            | intros E; try reflexivity;
              repeat (destruct E as [E|E]; [discriminate E|]); contradiction]).
Qed.

Lemma is_c_space_no_digit c :
  is_c_space c = true ->
  digit_val c = None /\ c <> "x"%char /\ c <> "X"%char /\ c <> "."%char.
Proof.
  destruct c as [[] [] [] [] [] [] [] []]; vm_compute;
    (intros E; first [discriminate E | repeat split; discriminate]).
Qed.

(** *** The text before the first blank *)

Lemma before_blank_split s :
  exists rest,
    s = before_blank s ++ rest /\
    (rest = "" \/ exists c r, rest = String c r /\ is_c_space c = true).
Proof.
  induction s as [|c s IH]; simpl.
  - exists "". split; [reflexivity | now left].
  - destruct (is_c_space c) eqn:Hc.
    + exists (String c s). split; [reflexivity | right; eauto].
    + destruct IH as (rest & E & Hr). exists rest. split; [|exact Hr].
      simpl. now rewrite <- E.
Qed.

Lemma before_blank_app body rest :
  (forall c, is_c_space c = true -> has_char c body = false) ->
  rest = "" \/ (exists c r, rest = String c r /\ is_c_space c = true) ->
  before_blank (body ++ rest) = body.
Proof.
  intros Hb Hr. induction body as [|x body IH]; simpl.
  - destruct Hr as [->|(c & r & -> & Hc)]; simpl; [reflexivity | now rewrite Hc].
  - destruct (is_c_space x) eqn:Hx.
    + specialize (Hb x Hx). simpl in Hb. now rewrite Ascii.eqb_refl in Hb.
    + f_equal. apply IH. intros c Hc. specialize (Hb c Hc). simpl in Hb.
      now apply orb_false_iff in Hb.
Qed.

Lemma before_blank_same s :
  (forall c, is_c_space c = true -> has_char c s = false) -> before_blank s = s.
Proof.
  intros H. pose proof (before_blank_app s "" H) as E.
  rewrite append_nil_r in E. apply E. now left.
Qed.

(** *** What [inet_aton] accepts *)

Lemma land_255_byte x : 0 <= x -> is_byte (Z.land x 255).
Proof.
  intros Hx. change 255 with (Z.ones 8). rewrite Z.land_ones by lia.
  unfold is_byte. pose proof (Z.mod_pos_bound x (2 ^ 8)). lia.
Qed.

Lemma shiftr_byte n k :
  0 <= k -> 0 <= n -> n < 2 ^ (k + 8) -> is_byte (Z.shiftr n k).
Proof.
  intros Hk Hn Hlt. rewrite Z.shiftr_div_pow2 by lia. unfold is_byte.
  assert (0 < 2 ^ k) by (apply Z.pow_pos_nonneg; lia).
  split; [apply Z.div_pos; lia|].
  assert (n / 2 ^ k < 256); [|lia].
  apply Z.div_lt_upper_bound; [lia|].
  rewrite Z.pow_add_r in Hlt by lia. change (2 ^ 8) with 256 in Hlt. lia.
Qed.

Ltac open_part H t n E B :=
  destruct (c_number t) as [n|] eqn:E; simpl in H; [|discriminate];
  destruct (n <=? 255) eqn:B; simpl in H; [|discriminate];
  apply Z.leb_le in B.

Ltac open_last H t n E B bound :=
  destruct (c_number t) as [n|] eqn:E; simpl in H; [|discriminate];
  destruct (n <=? bound) eqn:B; [|discriminate];
  apply Z.leb_le in B.

Lemma inet_aton_bytes s b :
  inet_aton s = Some b ->
  exists n1 n2 n3 n4, b = [n1; n2; n3; n4] /\
    is_byte n1 /\ is_byte n2 /\ is_byte n3 /\ is_byte n4.
Proof.
  unfold inet_aton. intros H. destruct (has_char NUL s); [discriminate|].
  destruct (split "." (before_blank s)) as [|t1 [|t2 [|t3 [|t4 [|t5 ts]]]]];
    try discriminate.
  - open_last H t1 n1 E1 B1 4294967295.
    pose proof (c_number_nonneg _ _ E1).
    inversion H; subst b. do 4 eexists. split; [reflexivity|].
    repeat split; try apply land_255_byte; try apply Z.shiftr_nonneg; try lia;
      apply (shiftr_byte n1 24); simpl; lia.
  - open_part H t1 n1 E1 B1. open_last H t2 n2 E2 B2 16777215.
    pose proof (c_number_nonneg _ _ E1). pose proof (c_number_nonneg _ _ E2).
    inversion H; subst b. do 4 eexists. split; [reflexivity|].
    repeat split; try apply land_255_byte; try apply Z.shiftr_nonneg; try lia;
      apply (shiftr_byte n2 16); simpl; lia.
  - open_part H t1 n1 E1 B1. open_part H t2 n2 E2 B2.
    open_last H t3 n3 E3 B3 65535.
    pose proof (c_number_nonneg _ _ E1). pose proof (c_number_nonneg _ _ E2).
    pose proof (c_number_nonneg _ _ E3).
    inversion H; subst b. do 4 eexists. split; [reflexivity|].
    repeat split; try apply land_255_byte; try apply Z.shiftr_nonneg; try lia;
      apply (shiftr_byte n3 8); simpl; lia.
  - open_part H t1 n1 E1 B1. open_part H t2 n2 E2 B2.
    open_part H t3 n3 E3 B3. open_part H t4 n4 E4 B4.
    pose proof (c_number_nonneg _ _ E1). pose proof (c_number_nonneg _ _ E2).
    pose proof (c_number_nonneg _ _ E3). pose proof (c_number_nonneg _ _ E4).
    inversion H; subst b. do 4 eexists. split; [reflexivity|].
    unfold is_byte. lia.
Qed.

Lemma numerals_no_char c ts ns :
  digit_val c = None -> c <> "x"%char -> c <> "X"%char ->
  Forall2 numeral ts ns -> Forall (fun t => has_char c t = false) ts.
Proof.
  intros Hc Hx HX H. induction H as [|t n ts ns Ht _ IH]; constructor; [|exact IH].
  apply c_number_spec in Ht. eapply c_number_no_char; eassumption.
Qed.

Lemma numerals_before_blank ts ns rest :
  Forall2 numeral ts ns ->
  rest = "" \/ (exists c r, rest = String c r /\ blank c) ->
  before_blank (join "." ts ++ rest) = join "." ts.
Proof.
  intros Hf Hrest. apply before_blank_app.
  - intros c Hc. apply is_c_space_no_digit in Hc as (H1 & H2 & H3 & H4).
    apply join_no_char.
    + apply Ascii.eqb_neq. congruence.
    + eapply numerals_no_char; eassumption.
  - destruct Hrest as [->|(c & r & -> & Hc)]; [now left | right].
    exists c, r. split; [reflexivity | now apply is_c_space_blank].
Qed.

Lemma numerals_split ts ns :
  ts <> [] -> Forall2 numeral ts ns -> split "." (join "." ts) = ts.
Proof.
  intros Hne Hf. apply split_join; [exact Hne|].
  eapply numerals_no_char; [reflexivity | discriminate | discriminate | exact Hf].
Qed.

(** The whole of what [inet_aton] takes, in the words of inet(3). *)
Lemma inet_aton_spec s : (exists b, inet_aton s = Some b) <-> inet_text s.
Proof.
  split.
  - intros (b & H). unfold inet_aton in H.
    destruct (has_char NUL s) eqn:Hn; [discriminate|]. split; [exact Hn|].
    destruct (before_blank_split s) as (rest & Es & Hrest).
    pose proof (join_split "." (before_blank s)) as Hj.
    assert (rest = "" \/ (exists c r, rest = String c r /\ blank c)) as Hrest'.
    { destruct Hrest as [->|(c & r & -> & Hc)]; [now left | right].
      exists c, r. split; [reflexivity | now apply is_c_space_blank]. }
    destruct (split "." (before_blank s)) as [|t1 [|t2 [|t3 [|t4 [|t5 ts]]]]];
      try discriminate.
    + open_last H t1 n1 E1 B1 4294967295.
      exists [t1], [n1], rest. rewrite Hj.
      split; [exact Es|]. split; [exact Hrest'|]. split; [|exact B1].
      repeat constructor; now apply c_number_spec.
    + open_part H t1 n1 E1 B1. open_last H t2 n2 E2 B2 16777215.
      exists [t1; t2], [n1; n2], rest. rewrite Hj.
      split; [exact Es|]. split; [exact Hrest'|]. split; [|simpl; auto].
      repeat constructor; now apply c_number_spec.
    + open_part H t1 n1 E1 B1. open_part H t2 n2 E2 B2.
      open_last H t3 n3 E3 B3 65535.
      exists [t1; t2; t3], [n1; n2; n3], rest. rewrite Hj.
      split; [exact Es|]. split; [exact Hrest'|]. split; [|simpl; auto].
      repeat constructor; now apply c_number_spec.
    + open_part H t1 n1 E1 B1. open_part H t2 n2 E2 B2.
      open_part H t3 n3 E3 B3. open_part H t4 n4 E4 B4.
      exists [t1; t2; t3; t4], [n1; n2; n3; n4], rest. rewrite Hj.
      split; [exact Es|]. split; [exact Hrest'|]. split; [|simpl; auto].
      repeat constructor; now apply c_number_spec.
  - intros (Hn & ts & ns & rest & -> & Hrest & Hf & Hfit).
    unfold inet_aton. rewrite Hn, (numerals_before_blank ts ns rest Hf Hrest).
    assert (ts <> []) as Hne.
    { intros ->. inversion Hf; subst. exact Hfit. }
    rewrite (numerals_split ts ns Hne Hf).
    destruct Hf as [|t1 n1 ts ns H1 Hf]; [contradiction|].
    apply c_number_spec in H1.
    destruct Hf as [|t2 n2 ts ns H2 Hf].
    { simpl in Hfit. apply Z.leb_le in Hfit. rewrite H1. simpl. rewrite Hfit. eauto. }
    apply c_number_spec in H2.
    destruct Hf as [|t3 n3 ts ns H3 Hf].
    { simpl in Hfit. destruct Hfit as [F1 F2]. apply Z.leb_le in F1, F2.
      rewrite H1. simpl. rewrite F1. simpl. rewrite H2. simpl. rewrite F2. eauto. }
    apply c_number_spec in H3.
    destruct Hf as [|t4 n4 ts ns H4 Hf].
    { simpl in Hfit. destruct Hfit as (F1 & F2 & F3). apply Z.leb_le in F1, F2, F3.
      rewrite H1. simpl. rewrite F1. simpl. rewrite H2. simpl. rewrite F2. simpl.
      rewrite H3. simpl. rewrite F3. eauto. }
    apply c_number_spec in H4.
    destruct Hf as [|t5 n5 ts ns H5 Hf]; [|contradiction].
    simpl in Hfit. destruct Hfit as (F1 & F2 & F3 & F4).
    apply Z.leb_le in F1, F2, F3, F4.
    rewrite H1. simpl. rewrite F1. simpl. rewrite H2. simpl. rewrite F2. simpl.
    rewrite H3. simpl. rewrite F3. simpl. rewrite H4. simpl. rewrite F4. eauto.
Qed.

(** Four numerals of one byte each give these bytes. *)
Lemma inet_aton_octets t1 t2 t3 t4 n1 n2 n3 n4 :
  numeral t1 n1 -> numeral t2 n2 -> numeral t3 n3 -> numeral t4 n4 ->
  n1 <= 255 -> n2 <= 255 -> n3 <= 255 -> n4 <= 255 ->
  inet_aton (join "." [t1; t2; t3; t4]) = Some [n1; n2; n3; n4].
Proof.
  intros H1 H2 H3 H4 B1 B2 B3 B4.
  assert (Forall2 numeral [t1; t2; t3; t4] [n1; n2; n3; n4]) as Hf
    by (repeat constructor; assumption).
  unfold inet_aton.
  assert (has_char NUL (join "." [t1; t2; t3; t4]) = false) as ->.
  { apply join_no_char; [reflexivity|].
    eapply numerals_no_char; [reflexivity | discriminate | discriminate | exact Hf]. }
  pose proof (numerals_before_blank _ _ "" Hf (or_introl eq_refl)) as Hb.
  rewrite append_nil_r in Hb. rewrite Hb.
  rewrite (numerals_split [t1; t2; t3; t4] [n1; n2; n3; n4] ltac:(discriminate) Hf).
  apply c_number_spec in H1, H2, H3, H4. apply Z.leb_le in B1, B2, B3, B4.
  rewrite H1. simpl. rewrite B1. simpl. rewrite H2. simpl. rewrite B2. simpl.
  rewrite H3. simpl. rewrite B3. simpl. rewrite H4. simpl. rewrite B4. reflexivity.
Qed.

(** *** Decimal numerals, as [str] writes an integer *)

Lemma digits_snoc base s n c d :
  digits base s n -> digit_of c d -> d < base ->
  digits base (s ++ String c "") (n * base + d).
Proof.
  intros H Hd Hlt. induction H as [|c' d' r n' Hd' Hlt' Hr IH]; simpl.
  - replace (0 * base + d) with (d * base ^ Z.of_nat (String.length "") + 0)
      by (simpl; lia).
    constructor; [assumption | assumption | constructor].
  - replace ((d' * base ^ Z.of_nat (String.length r) + n') * base + d)
      with (d' * base ^ Z.of_nat (String.length (r ++ String c "")) + (n' * base + d)).
    + constructor; assumption.
    + rewrite length_append. simpl. rewrite Nat2Z.inj_add. simpl Z.of_nat.
      rewrite Z.pow_add_r by lia. rewrite Z.pow_1_r. ring.
Qed.

Lemma pretty_N_char_digit x :
  (x < 10)%N ->
  digit_of (pretty_N_char x) (Z.of_N x) /\ Z.of_N x < 10 /\
  (x <> 0%N -> pretty_N_char x <> "0"%char).
Proof.
  intros H.
  assert (x = 0 \/ x = 1 \/ x = 2 \/ x = 3 \/ x = 4 \/ x = 5 \/ x = 6 \/
          x = 7 \/ x = 8 \/ x = 9)%N as Hx by lia.
  repeat (destruct Hx as [->|Hx]); try subst x;
    (split; [unfold digit_of; cbv [pretty_N_char];
                set (n := Z.of_nat (nat_of_ascii _)); vm_compute in n; subst n; simpl; lia
            | split; [simpl; lia | intros; discriminate || congruence]]).
Qed.

Lemma pretty_N_go_digits x : forall s,
  (0 < x)%N ->
  exists c r, pretty_N_go x s = String c r ++ s /\ c <> "0"%char /\
              digits 10 (String c r) (Z.of_N x).
Proof.
  induction (N.lt_wf_0 x) as [x _ IH]. intros s Hx.
  rewrite pretty_N_go_step by assumption.
  destruct (pretty_N_char_digit (x `mod` 10)) as (Hd & Hlt & Hnz).
  { apply N.mod_lt. discriminate. }
  assert (Z.of_N x = Z.of_N (x `div` 10) * 10 + Z.of_N (x `mod` 10)) as Ex.
  { rewrite (N.div_mod x 10) at 1 by discriminate. lia. }
  destruct (N.eq_dec (x `div` 10)%N 0%N) as [E0|Hpos].
  - rewrite E0, pretty_N_go_0. exists (pretty_N_char (x `mod` 10)), "".
    split; [reflexivity|]. split.
    + apply Hnz. intros Hm. rewrite E0, Hm in Ex. lia.
    + rewrite Ex, E0.
      replace (Z.of_N 0 * 10 + Z.of_N (x `mod` 10))
        with (Z.of_N (x `mod` 10) * 10 ^ Z.of_nat (String.length "") + 0)
        by (simpl; lia).
      constructor; [assumption | assumption | constructor].
  - destruct (IH (x `div` 10)%N) with (s := String (pretty_N_char (x `mod` 10)) s)
      as (c & r & E & Hc & Hdig).
    + apply N.div_lt; [assumption | reflexivity].
    + lia.
    + exists c, (r ++ String (pretty_N_char (x `mod` 10)) "").
      split; [|split; [exact Hc|]].
      * rewrite E. simpl. rewrite append_assoc. reflexivity.
      * rewrite Ex.
        change (String c (r ++ String (pretty_N_char (x `mod` 10)) ""))
          with (String c r ++ String (pretty_N_char (x `mod` 10)) "").
        now apply digits_snoc.
Qed.

Lemma pretty_pos_digits (p : positive) :
  exists c r, pretty (Z.pos p) = String c r /\ c <> "0"%char /\
              digits 10 (String c r) (Z.pos p).
Proof.
  destruct (pretty_N_go_digits (N.pos p) "") as (c & r & E & Hc & Hd); [lia|].
  exists c, r. rewrite append_nil_r in E. split; [|split; assumption].
  unfold pretty, pretty_Z, pretty, pretty_positive, pretty, pretty_N.
  destruct (decide (N.pos p = 0%N)); [discriminate | exact E].
Qed.

(** The decimal numeral of a natural number is a numeral of C with the same
    value. *)
Lemma pretty_numeral n : 0 <= n -> numeral (pretty n) n.
Proof.
  intros Hn. destruct n as [|p|p]; [|clear Hn|lia].
  - change (pretty 0) with "0". apply numeral_oct. constructor.
  - destruct (pretty_pos_digits p) as (c & r & -> & Hc & Hd).
    now apply numeral_dec.
Qed.

Lemma pretty_decimal n : 0 <= n -> decimal (pretty n) n.
Proof.
  intros Hn. destruct n as [|p|p]; [|clear Hn|lia].
  - change (pretty 0) with "0". split; [discriminate|].
    refine (digits_cons 10 "0"%char 0 "" 0 _ _ (digits_nil 10)); [|lia].
    unfold digit_of. set (n := Z.of_nat (nat_of_ascii _)). vm_compute in n. subst n. lia.
  - destruct (pretty_pos_digits p) as (c & r & -> & Hc & Hd).
    split; [discriminate | assumption].
Qed.

(** Decimal octets joined by dots, as an address text. *)
Lemma pretty_octets_numerals ns :
  Forall is_byte ns -> Forall2 numeral (map pretty ns) ns.
Proof.
  intros H. induction H as [|n ns Hn _ IH]; constructor; [|exact IH].
  apply pretty_numeral. unfold is_byte in Hn. lia.
Qed.

(** *** Decimal numerals and [int] *)

Lemma is_space_no_digit c :
  is_space c = true -> digit_val c = None /\ c <> "-"%char /\ c <> "_"%char.
Proof.
  destruct c as [[] [] [] [] [] [] [] []]; vm_compute;
    (intros E; first [discriminate E | repeat split; discriminate]).
Qed.

Lemma lstrip_same c r : is_space c = false -> lstrip (String c r) = String c r.
Proof. intros H. simpl. now rewrite H. Qed.

Lemma rstrip_same s :
  (forall c, is_space c = true -> has_char c s = false) -> rstrip s = s.
Proof.
  induction s as [|x s IH]; intros H; simpl; [reflexivity|].
  assert (is_space x = false) as Hx.
  { destruct (is_space x) eqn:E; [|reflexivity].
    specialize (H x E). simpl in H. now rewrite Ascii.eqb_refl in H. }
  rewrite IH.
  - destruct s; [now rewrite Hx | reflexivity].
  - intros c Hc. specialize (H c Hc). simpl in H. now apply orb_false_iff in H.
Qed.

Lemma digits_no_char base s n c :
  digit_val c = None -> digits base s n -> has_char c s = false.
Proof.
  intros Hc H. induction H as [|x d r n Hd _ _ IH]; [reflexivity|].
  simpl. rewrite IH, orb_false_r. apply Ascii.eqb_neq. intros ->.
  apply digit_val_spec in Hd. congruence.
Qed.

Lemma int_digits_digits s : forall n acc b,
  digits 10 s n -> s <> "" ->
  int_digits acc b s = Some (acc * 10 ^ Z.of_nat (String.length s) + n).
Proof.
  induction s as [|c r IH]; intros n acc b H Hne; [congruence|].
  inversion H as [|c' d r' n' Hd Hlt Hr]; subst.
  change (int_digits acc b (String c r))
    with (if Ascii.eqb c "_"
          then (if b then int_digits acc false r else None)
          else match digit_val c with
               | Some d => if d <? 10 then int_digits (acc * 10 + d) true r else None
               | None => None
               end).
  destruct (digit_of_not _ _ Hd) as (_ & _ & Hu).
  apply Ascii.eqb_neq in Hu. rewrite Hu.
  apply digit_val_spec in Hd. rewrite Hd.
  destruct (Z.ltb_spec d 10); [|lia].
  change (String.length (String c r)) with (S (String.length r)).
  rewrite Nat2Z.inj_succ, Z.pow_succ_r by lia.
  destruct r as [|c2 r2].
  - inversion Hr; subst. simpl. f_equal. lia.
  - rewrite (IH n' (acc * 10 + d) true Hr) by discriminate. f_equal. ring.
Qed.

Lemma count_digits_le s : count_digits s <= Z.of_nat (String.length s).
Proof.
  induction s as [|c r IH]; [simpl; lia|].
  change (String.length (String c r)) with (S (String.length r)).
  rewrite Nat2Z.inj_succ. simpl.
  destruct (digit_val c) as [d|]; [destruct (d <? 10)|]; lia.
Qed.

Lemma int_numeral_digits s n :
  digits 10 s n -> s <> "" -> (String.length s <= 4300)%nat ->
  int_numeral s = Some n.
Proof.
  intros H Hne Hlen. unfold int_numeral, max_str_digits.
  pose proof (count_digits_le s).
  destruct (Z.ltb_spec 4300 (count_digits s)); [lia|].
  rewrite (int_digits_digits s n 0 false H Hne). f_equal; lia.
Qed.

(** [int(str(p)) == p] for every integer of at most 4300 digits. *)
Lemma py_int_pretty p :
  (String.length (pretty (Z.abs p)) <= 4300)%nat -> py_int (pretty p) = Some p.
Proof.
  intros Hlen. destruct p as [|q|q].
  - reflexivity.
  - change (Z.abs (Z.pos q)) with (Z.pos q) in Hlen.
    destruct (pretty_pos_digits q) as (c & r & E & Hc & Hd).
    rewrite E in Hlen |- *.
    assert (forall x, is_space x = true -> has_char x (String c r) = false) as Hsp.
    { intros x Hx. apply is_space_no_digit in Hx as (Hx & _).
      eapply digits_no_char; eassumption. }
    assert (is_space c = false) as Hcs.
    { destruct (is_space c) eqn:Ec; [|reflexivity].
      specialize (Hsp c Ec). simpl in Hsp. now rewrite Ascii.eqb_refl in Hsp. }
    unfold py_int. rewrite (lstrip_same c r Hcs), (rstrip_same _ Hsp).
    assert (exists d, digit_of c d) as (d & Hdig) by (inversion Hd; eauto).
    assert (Ascii.eqb c "-" = false) as ->.
    { apply Ascii.eqb_neq. intros ->. unfold digit_of in Hdig.
      set (k := Z.of_nat (nat_of_ascii _)) in Hdig. vm_compute in k. subst k. lia. }
    assert (Ascii.eqb c "+" = false) as ->.
    { apply Ascii.eqb_neq. intros ->. unfold digit_of in Hdig.
      set (k := Z.of_nat (nat_of_ascii _)) in Hdig. vm_compute in k. subst k. lia. }
    apply int_numeral_digits; [exact Hd | discriminate | exact Hlen].
  - change (Z.abs (Z.neg q)) with (Z.pos q) in Hlen.
    destruct (pretty_pos_digits q) as (c & r & E & Hc & Hd).
    change (pretty (Z.neg q)) with ("-" ++ pretty (Z.pos q)).
    rewrite E in Hlen |- *.
    assert (forall x, is_space x = true -> has_char x (String c r) = false) as Hsp.
    { intros x Hx. apply is_space_no_digit in Hx as (Hx & _).
      eapply digits_no_char; eassumption. }
    unfold py_int.
    change ("-" ++ String c r) with (String "-" (String c r)).
    rewrite (lstrip_same "-" (String c r) eq_refl).
    rewrite rstrip_same.
    + rewrite Ascii.eqb_refl.
      rewrite (int_numeral_digits _ _ Hd) by (discriminate || exact Hlen).
      reflexivity.
    + intros x Hx.
      change (has_char x (String "-" (String c r)))
        with (Ascii.eqb "-" x || has_char x (String c r)).
      rewrite (Hsp x Hx), orb_false_r.
      apply is_space_no_digit in Hx as (_ & Hx & _).
      apply Ascii.eqb_neq. congruence.
Qed.


Lemma unpack_be_range n1 n2 n3 n4 :
  is_byte n1 -> is_byte n2 -> is_byte n3 -> is_byte n4 ->
  0 <= unpack_be [n1; n2; n3; n4] < 2 ^ 32.
Proof. unfold is_byte, unpack_be. simpl. lia. Qed.

(** ** Construction of an address *)

Lemma split_normalize v :
  split "." (Address._normalize_addr v)
  = (split "." v ++ repeat "0"%string (4 - List.length (split "." v)))%list.
Proof.
  unfold Address._normalize_addr. apply split_join.
  - intros H. apply app_eq_nil in H as [H _]. now apply split_nonempty in H.
  - apply Forall_app. split; [apply split_parts_no_sep|].
    apply List.Forall_forall. intros x Hx. apply repeat_spec in Hx. now subst.
Qed.

Lemma normalize_length v :
  (4 <= List.length (split "." (Address._normalize_addr v)))%nat.
Proof. rewrite split_normalize, length_app, repeat_length. lia. Qed.

Lemma normalize_full v :
  (4 <= List.length (split "." v))%nat -> Address._normalize_addr v = v.
Proof.
  intros H. unfold Address._normalize_addr.
  replace (4 - List.length (split "." v))%nat with 0%nat by lia.
  simpl. rewrite app_nil_r. apply join_split.
Qed.

Lemma normalize_short v :
  (List.length (split "." v) < 4)%nat ->
  (String.length v < String.length (Address._normalize_addr v))%nat.
Proof.
  intros H. unfold Address._normalize_addr.
  rewrite <- (join_split "." v) at 1.
  apply length_join_app; [apply split_nonempty|].
  destruct (4 - List.length (split "." v))%nat eqn:E; [lia | discriminate].
Qed.

Lemma append_inj_l (a b x : string) : a ++ x = b ++ x -> a = b.
Proof.
  revert b. induction a as [|c a IH]; intros [|d b] H; simpl in H.
  - reflexivity.
  - apply (f_equal String.length) in H. simpl in H. rewrite length_append in H. lia.
  - apply (f_equal String.length) in H. simpl in H. rewrite length_append in H. lia.
  - inversion H; subst. f_equal. now apply IH.
Qed.

Lemma init_inv a n r :
  Address.__init__ a n = Ok r ->
  exists b p,
    inet_aton (Address._normalize_addr (fst (Address.split_prefix a))) = Some b /\
    py_int (snd (Address.split_prefix a)) = Some p /\
    r = Address.mk a n (unpack_be b) p
          (fst (Address.split_prefix a) ++ "/" ++ snd (Address.split_prefix a)).
Proof.
  unfold Address.__init__. destruct (Address.split_prefix a) as [v p]. simpl.
  destruct (inet_aton _) as [b|]; [|discriminate].
  destruct (py_int p) as [q|]; [|discriminate].
  intros H. inversion H. eauto.
Qed.

Lemma init_raise_address a n :
  Address.__init__ a n = Raise InvalidAddressFormat <->
  inet_aton (Address._normalize_addr (fst (Address.split_prefix a))) = None.
Proof.
  unfold Address.__init__. destruct (Address.split_prefix a) as [v p]. simpl.
  destruct (inet_aton _) as [b|].
  - destruct (py_int p); split; discriminate.
  - split; reflexivity.
Qed.

Lemma constructed_value_range r :
  constructed r -> 0 <= Address.value r < 2 ^ 32.
Proof.
  intros (a & n & H). apply init_inv in H as (b & p & Hb & _ & ->).
  apply inet_aton_bytes in Hb as (n1 & n2 & n3 & n4 & -> & B).
  simpl. apply unpack_be_range; tauto.
Qed.

Lemma inet_aton_parts s b :
  inet_aton s = Some b ->
  (1 <= List.length (split "." (before_blank s)) <= 4)%nat.
Proof.
  unfold inet_aton. destruct (has_char NUL s); [discriminate|].
  destruct (split "." (before_blank s)) as [|t1 [|t2 [|t3 [|t4 [|t5 ts]]]]];
    try discriminate; simpl; lia.
Qed.

Lemma pretty_octets_no_char c ns :
  Forall is_byte ns -> digit_val c = None -> c <> "x"%char -> c <> "X"%char ->
  Forall (fun t => has_char c t = false) (map pretty ns).
Proof.
  intros H Hc Hx HX. eapply numerals_no_char; try eassumption.
  now apply pretty_octets_numerals.
Qed.

Lemma split_pretty_octets ns :
  ns <> [] -> Forall is_byte ns ->
  split "." (join "." (map pretty ns)) = map pretty ns.
Proof.
  intros Hne H. apply split_join.
  - destruct ns; [congruence | discriminate].
  - apply pretty_octets_no_char; [assumption | reflexivity | discriminate..].
Qed.

(** Padding a text of decimal octets gives the text of the octets followed
    by zeros. *)
Lemma normalize_pretty_octets ns :
  ns <> [] -> Forall is_byte ns ->
  Address._normalize_addr (join "." (map pretty ns))
  = join "." (map pretty (ns ++ repeat 0 (4 - List.length ns)))%list.
Proof.
  intros Hne H. unfold Address._normalize_addr.
  rewrite (split_pretty_octets ns Hne H), length_map, map_app. f_equal. f_equal.
  induction (4 - List.length ns)%nat as [|k IH]; [reflexivity|].
  simpl. now rewrite IH.
Qed.

Lemma padded_octets_bytes ns :
  Forall is_byte ns -> Forall is_byte (ns ++ repeat 0 (4 - List.length ns))%list.
Proof.
  intros H. apply Forall_app. split; [exact H|].
  apply List.Forall_forall. intros x Hx. apply repeat_spec in Hx. subst.
  unfold is_byte. lia.
Qed.

(** One to four decimal octets are an address, whose bytes are the octets
    followed by zeros. *)
Lemma inet_aton_pretty_octets ns :
  (1 <= List.length ns <= 4)%nat -> Forall is_byte ns ->
  inet_aton (Address._normalize_addr (join "." (map pretty ns)))
  = Some (ns ++ repeat 0 (4 - List.length ns))%list.
Proof.
  intros Hlen H.
  assert (ns <> []) as Hne by (destruct ns; simpl in *; [lia | discriminate]).
  rewrite (normalize_pretty_octets ns Hne H).
  pose proof (padded_octets_bytes ns H) as Hb.
  assert (List.length (ns ++ repeat 0 (4 - List.length ns))%list = 4%nat) as Hl.
  { rewrite length_app, repeat_length. lia. }
  destruct (ns ++ repeat 0 (4 - List.length ns))%list
    as [|n1 [|n2 [|n3 [|n4 [|n5 l]]]]]; try discriminate.
  inversion Hb as [|? ? B1 Hb1]; subst. inversion Hb1 as [|? ? B2 Hb2]; subst.
  inversion Hb2 as [|? ? B3 Hb3]; subst. inversion Hb3 as [|? ? B4 _]; subst.
  unfold is_byte in *.
  apply (inet_aton_octets (pretty n1) (pretty n2) (pretty n3) (pretty n4));
    try apply pretty_numeral; lia.
Qed.

(** C1, the claim as stated fails: the canonical form of ["137.43/16"] is
    the text ["137.43/16"] itself, with two octets, and not the padded
    ["137.43.0.0/16"]. *)
Lemma cidr_not_padded_counterexample :
  exists r, Address.__init__ "137.43/16" "net" = Ok r /\
    Address.cidr r = "137.43/16" /\
    Address._normalize_addr "137.43" = "137.43.0.0" /\
    Address.cidr r <> Address._normalize_addr "137.43" ++ "/" ++ "16" /\
    List.length (split "." (fst (Address.split_prefix (Address.cidr r)))) = 2%nat.
Proof.
  eexists. split; [vm_compute; reflexivity|].
  repeat split; try reflexivity. vm_compute. discriminate.
Qed.

(** C1, amended: for every input the constructor accepts, the canonical form
    is the value part exactly as written (no zero padding), a slash, and the
    prefix token as written (32 when the input has none).  It equals the
    zero-padded form exactly when the value part already has four
    dot-separated parts or more; a value part of one to four decimal octets
    gives a canonical form of as many octets, and no accepted value part of
    decimal octets has more than four.  Only the numeric value is read from
    the padded text. *)
Theorem cidr_keeps_value_text (a n : string) (r : Address.t) :
  Address.__init__ a n = Ok r ->
  let (v, p) := Address.split_prefix a in
  Address.cidr r = v ++ "/" ++ p /\
  (Address.cidr r = Address._normalize_addr v ++ "/" ++ p <->
   (4 <= List.length (split "." v))%nat) /\
  (forall ns,
     ns <> [] -> Forall is_byte ns -> v = join "." (map pretty ns) ->
     List.length (split "." v) = List.length ns /\
     (1 <= List.length ns <= 4)%nat) /\
  (exists b, inet_aton (Address._normalize_addr v) = Some b /\
             Address.value r = unpack_be b).
Proof.
  intros H. apply init_inv in H as (b & q & Hb & _ & ->).
  destruct (Address.split_prefix a) as [v p]. simpl in *.
  split; [reflexivity|].
  split; [|split; [|exists b; split; [exact Hb | reflexivity]]].
  - split.
    + intros E. apply append_inj_l in E.
      destruct (le_lt_dec 4 (List.length (split "." v))) as [|Hlt]; [assumption|].
      apply normalize_short in Hlt. rewrite <- E in Hlt. lia.
    + intros E. rewrite normalize_full by lia. reflexivity.
  - intros ns Hne Hns ->.
    rewrite (split_pretty_octets ns Hne Hns), length_map. split; [reflexivity|].
    split; [destruct ns; simpl; [congruence | lia]|].
    apply inet_aton_parts in Hb.
    rewrite normalize_pretty_octets in Hb by assumption.
    rewrite before_blank_same in Hb.
    + rewrite split_pretty_octets in Hb.
      * rewrite length_map, length_app in Hb. lia.
      * destruct ns; [congruence | discriminate].
      * now apply padded_octets_bytes.
    + intros c Hc. apply is_c_space_no_digit in Hc as (H1 & H2 & H3 & H4).
      apply join_no_char; [apply Ascii.eqb_neq; congruence|].
      apply pretty_octets_no_char; try assumption. now apply padded_octets_bytes.
Qed.

Lemma cidr_keeps_value_text_witness :
  Address.__init__ "137.43/16" "net"
    = Ok (Address.mk "137.43/16" "net" 2301296640 16 "137.43/16") /\
  Address.cidr (Address.mk "137.43/16" "net" 2301296640 16 "137.43/16")
    = "137.43" ++ "/" ++ "16".
Proof.
  assert (Address.__init__ "137.43/16" "net"
    = Ok (Address.mk "137.43/16" "net" 2301296640 16 "137.43/16")) as H
    by (vm_compute; reflexivity).
  split; [exact H|].
  exact (proj1 (cidr_keeps_value_text "137.43/16" "net" _ H)).
Defined.

Lemma init_raise_inet_text a n :
  Address.__init__ a n = Raise InvalidAddressFormat <->
  ~ inet_text (Address._normalize_addr (fst (Address.split_prefix a))).
Proof.
  rewrite init_raise_address, <- inet_aton_spec. split.
  - intros E (b & Hb). congruence.
  - intros H. destruct (inet_aton _) as [b|]; [|reflexivity].
    exfalso. apply H. eauto.
Qed.

Lemma four_integers_no_char c s :
  digit_val c = None -> c <> "."%char -> four_integers s -> has_char c s = false.
Proof.
  intros Hc Hdot (t1 & t2 & t3 & t4 & n1 & n2 & n3 & n4 & -> &
                  [_ H1] & [_ H2] & [_ H3] & [_ H4] & _).
  change (t1 ++ "." ++ t2 ++ "." ++ t3 ++ "." ++ t4)
    with (join "." [t1; t2; t3; t4]).
  apply join_no_char; [apply Ascii.eqb_neq; congruence|].
  repeat constructor; eapply digits_no_char; eassumption.
Qed.

Lemma parse_digits_decimal t n :
  t <> "" -> parse_digits 10 0 t = Some n -> decimal t n.
Proof.
  intros Hne H. apply parse_digits_spec in H as (m & Hm & ->).
  split; [exact Hne|]. now replace (0 * 10 ^ Z.of_nat (String.length t) + m) with m by lia.
Qed.

(** C8, the claim as stated fails, in both directions.  The constructor
    accepts ["1.2.3.4 x"], whose padded value part is that same text and is
    not four integers (the C library stops reading at the blank), and
    ["0x10.1.1.1"], whose first part is no integer but a hexadecimal
    numeral.  And it rejects ["1.2.3.08"], four integers in [0, 255] of
    which the last, with its leading zero, is no octal numeral. *)
Lemma init_accepts_not_four_integers_counterexample :
  (exists r, Address.__init__ "1.2.3.4 x" "" = Ok r /\
     Address.value r = 16909060 /\
     Address._normalize_addr (fst (Address.split_prefix "1.2.3.4 x")) = "1.2.3.4 x" /\
     ~ four_integers "1.2.3.4 x") /\
  (exists r, Address.__init__ "0x10.1.1.1" "" = Ok r /\
     Address.value r = 268501249 /\
     Address._normalize_addr (fst (Address.split_prefix "0x10.1.1.1")) = "0x10.1.1.1" /\
     ~ four_integers "0x10.1.1.1") /\
  (Address.__init__ "1.2.3.08" "" = Raise InvalidAddressFormat /\
   Address._normalize_addr (fst (Address.split_prefix "1.2.3.08")) = "1.2.3.08" /\
   four_integers "1.2.3.08").
Proof.
  split; [|split].
  - eexists. split; [vm_compute; reflexivity|]. split; [reflexivity|].
    split; [reflexivity|]. intros H.
    apply (four_integers_no_char " ") in H; [discriminate | reflexivity | discriminate].
  - eexists. split; [vm_compute; reflexivity|]. split; [reflexivity|].
    split; [reflexivity|]. intros H.
    apply (four_integers_no_char "x") in H; [discriminate | reflexivity | discriminate].
  - split; [reflexivity|]. split; [reflexivity|].
    exists "1", "2", "3", "08", 1, 2, 3, 8. split; [reflexivity|].
    unfold is_byte.
    repeat split; try discriminate; try lia;
      apply parse_digits_decimal; (discriminate || reflexivity).
Qed.

(** C8, amended: construction raises the error of [socket.inet_aton]
    exactly when the zero-padded value part is no address text in the
    notation of inet(3): one to four numerals of C (decimal, octal after a
    leading [0], hexadecimal after [0x]) separated by dots and filling four
    bytes, followed by the end of the text or by a blank and anything,
    without a NUL character.  ["999.1.1.1"] is rejected that way, and a
    value part of four integers in [0, 255] written in decimal without
    leading zeros is never rejected that way. *)
Theorem init_rejects_iff_not_inet_text :
  (forall a n,
     Address.__init__ a n = Raise InvalidAddressFormat <->
     ~ inet_text (Address._normalize_addr (fst (Address.split_prefix a)))) /\
  (forall n, Address.__init__ "999.1.1.1" n = Raise InvalidAddressFormat) /\
  (forall a n n1 n2 n3 n4,
     fst (Address.split_prefix a) = join "." (map pretty [n1; n2; n3; n4]) ->
     is_byte n1 -> is_byte n2 -> is_byte n3 -> is_byte n4 ->
     four_integers (fst (Address.split_prefix a)) /\
     Address.__init__ a n <> Raise InvalidAddressFormat).
Proof.
  split; [exact init_raise_inet_text|]. split; [intros n; reflexivity|].
  intros a n n1 n2 n3 n4 E B1 B2 B3 B4. split.
  - rewrite E. exists (pretty n1), (pretty n2), (pretty n3), (pretty n4), n1, n2, n3, n4.
    unfold is_byte in *.
    repeat split; try reflexivity; try apply pretty_decimal; lia.
  - intros H. apply init_raise_address in H. rewrite E in H.
    rewrite (inet_aton_pretty_octets [n1; n2; n3; n4]) in H; [discriminate | simpl; lia|].
    repeat (apply List.Forall_cons; [assumption|]). apply List.Forall_nil.
Qed.

(** ** Containment *)

Lemma testbit_above x i : 0 <= x < 2 ^ 32 -> 32 <= i -> Z.testbit x i = false.
Proof.
  intros Hx Hi. destruct (Z.eq_dec x 0) as [->|Hne]; [apply Z.bits_0|].
  apply Z.bits_above_log2; [lia|].
  assert (Z.log2 x < 32) by (apply Z.log2_lt_pow2; lia). lia.
Qed.

Lemma shiftr_eq_top_bits k x y :
  0 <= x < 2 ^ 32 -> 0 <= y < 2 ^ 32 -> k <= 32 ->
  Z.shiftr x (32 - k) = Z.shiftr y (32 - k) <-> top_bits_equal k x y.
Proof.
  intros Hx Hy Hk. unfold top_bits_equal. split.
  - intros E i Hi.
    replace i with ((i - (32 - k)) + (32 - k)) by lia.
    rewrite <- !Z.shiftr_spec by lia. now rewrite E.
  - intros H. apply Z.bits_inj'. intros m Hm.
    rewrite !Z.shiftr_spec by assumption.
    destruct (Z_lt_dec (m + (32 - k)) 32).
    + apply H. lia.
    + rewrite !testbit_above by (assumption || lia). reflexivity.
Qed.

Lemma contains_eval self other :
  Address.prefix self <= 32 ->
  Address.__contains__ self (Address.PyAddress other)
  = Ok ((Z.shiftr (Address.value self) (32 - Address.prefix self)
         =? Z.shiftr (Address.value other) (32 - Address.prefix self))
        && (Address.prefix self <=? Address.prefix other)).
Proof.
  intros H. unfold Address.__contains__, py_rshift.
  replace (32 - Address.prefix self <? 0) with false
    by (symmetry; apply Z.ltb_ge; lia).
  reflexivity.
Qed.

Lemma contains_raise self other :
  32 < Address.prefix self ->
  Address.__contains__ self (Address.PyAddress other) = Raise NegativeShiftCount.
Proof.
  intros H. unfold Address.__contains__, py_rshift.
  replace (32 - Address.prefix self <? 0) with true
    by (symmetry; apply Z.ltb_lt; lia).
  reflexivity.
Qed.

Lemma same_network_iff self other :
  same_network self other <->
  Address.prefix self <= 32 /\
  Z.shiftr (Address.value self) (32 - Address.prefix self)
  = Z.shiftr (Address.value other) (32 - Address.prefix self).
Proof.
  unfold same_network, py_rshift.
  destruct (32 - Address.prefix self <? 0) eqn:E.
  - apply Z.ltb_lt in E. split; [intros (n & H & _); discriminate | lia].
  - apply Z.ltb_ge in E. split.
    + intros (n & H1 & H2). inversion H1. inversion H2. split; [lia | congruence].
    + intros [_ H]. eexists. split; [reflexivity | now rewrite H].
Qed.

Lemma contains_true_iff self other :
  Address.__contains__ self (Address.PyAddress other) = Ok true <->
  same_network self other /\ Address.prefix self <= Address.prefix other.
Proof.
  rewrite same_network_iff.
  destruct (Z_le_dec (Address.prefix self) 32) as [Hle|Hgt].
  - rewrite contains_eval by assumption. split.
    + intros H. inversion H as [Hb]. apply andb_true_iff in Hb as [H1 H2].
      apply Z.eqb_eq in H1. apply Z.leb_le in H2. tauto.
    + intros [[_ H1] H2]. apply Z.eqb_eq in H1. apply Z.leb_le in H2.
      now rewrite H1, H2.
  - rewrite contains_raise by lia. split; [discriminate | lia].
Qed.

(** C2, the claim as stated fails: the constructor accepts ["1.2.3.4/40"],
    and the record it returns does not contain itself, although its bits
    agree with its own and its prefix is not above its own: the test raises
    on the negative shift count instead of returning. *)
Lemma contains_not_reflexive_counterexample :
  exists r,
    Address.__init__ "1.2.3.4/40" "" = Ok r /\
    top_bits_equal (Address.prefix r) (Address.value r) (Address.value r) /\
    Address.prefix r <= Address.prefix r /\
    Address.__contains__ r (Address.PyAddress r) = Raise NegativeShiftCount /\
    Address.__contains__ r (Address.PyAddress r) <> Ok true.
Proof.
  eexists. split; [vm_compute; reflexivity|].
  split; [intros i _; reflexivity|]. split; [simpl; lia|].
  split; [reflexivity | discriminate].
Qed.

(** C2, amended: [self.contains(other)] is true exactly when both values
    shifted right by [32 - self.prefix] are equal and
    [self.prefix <= other.prefix] (and false for an [other] that is no
    [Address]); for records the constructor returns, with a prefix of at
    most 32, that equality says that the top [self.prefix] bits agree.
    Hence a /16 network contains every /32 host with the same top 16 bits, a
    /32 record never contains a /16 record, and a record of prefix at most
    32 contains any record of the same value and prefix.  With a prefix
    above 32 the test raises, whatever the other record is. *)
Theorem contains_iff_network_match :
  (forall self other,
     Address.__contains__ self (Address.PyAddress other) = Ok true <->
     same_network self other /\ Address.prefix self <= Address.prefix other) /\
  (forall self s,
     Address.__contains__ self (Address.PyStr s) = Ok false /\
     Address.__contains__ self Address.PyNone = Ok false) /\
  (forall self other,
     constructed self -> constructed other -> Address.prefix self <= 32 ->
     (same_network self other <->
      top_bits_equal (Address.prefix self) (Address.value self) (Address.value other))) /\
  (forall net host,
     constructed net -> constructed host ->
     Address.prefix net = 16 -> Address.prefix host = 32 ->
     top_bits_equal 16 (Address.value net) (Address.value host) ->
     Address.__contains__ net (Address.PyAddress host) = Ok true) /\
  (forall self other,
     Address.prefix self = 32 -> Address.prefix other = 16 ->
     Address.__contains__ self (Address.PyAddress other) = Ok false) /\
  (forall self other,
     Address.prefix self <= 32 ->
     Address.prefix other = Address.prefix self ->
     Address.value other = Address.value self ->
     Address.__contains__ self (Address.PyAddress other) = Ok true) /\
  (forall self other,
     32 < Address.prefix self ->
     Address.__contains__ self (Address.PyAddress other) = Raise NegativeShiftCount) /\
  (exists host net,
     Address.__init__ "10.0.0.1/32" "" = Ok host /\
     Address.__init__ "10.0/16" "" = Ok net /\
     Address.__contains__ host (Address.PyAddress net) = Ok false /\
     Address.__contains__ net (Address.PyAddress host) = Ok true /\
     Address.__contains__ host (Address.PyAddress host) = Ok true).
Proof.
  split; [exact contains_true_iff|]. split; [split; reflexivity|].
  split; [|split; [|split; [|split; [|split; [exact contains_raise|]]]]].
  - intros self other Hs Ho Hp. rewrite same_network_iff.
    rewrite <- shiftr_eq_top_bits by (auto using constructed_value_range).
    tauto.
  - intros net host Hn Hh Pn Ph Hbits. apply contains_true_iff. split; [|lia].
    apply same_network_iff. split; [lia|]. rewrite Pn in *.
    apply shiftr_eq_top_bits; auto using constructed_value_range. lia.
  - intros self other Ps Po. rewrite contains_eval by lia.
    rewrite Ps, Po. now rewrite andb_false_r.
  - intros self other Hp Po Vo. rewrite contains_eval by lia.
    rewrite Po, Vo, Z.eqb_refl, Z.leb_refl. reflexivity.
  - do 2 eexists. split; [vm_compute; reflexivity|].
    split; [vm_compute; reflexivity|]. repeat split.
Qed.

(** C4, the claim as stated fails: the constructor accepts the prefix token
    [-1], and the record for ["0.0.0.0/0"] does not contain the record for
    ["200.1.2.3/-1"], because [0 <= -1] is false. *)
Lemma prefix_zero_counterexample :
  exists self other,
    Address.__init__ "0.0.0.0/0" "" = Ok self /\
    Address.__init__ "200.1.2.3/-1" "" = Ok other /\
    Address.prefix self = 0 /\
    Address.__contains__ self (Address.PyAddress other) = Ok false.
Proof.
  do 2 eexists. split; [vm_compute; reflexivity|].
  split; [vm_compute; reflexivity|]. split; reflexivity.
Qed.

(** C4, amended: a record with prefix 0 contains every record whose prefix
    is not negative; shifting a 32-bit value by 32 leaves 0 on both sides. *)
Theorem prefix_zero_contains_all (self other : Address.t) :
  constructed self -> constructed other ->
  Address.prefix self = 0 -> 0 <= Address.prefix other ->
  Address.__contains__ self (Address.PyAddress other) = Ok true.
Proof.
  intros Hs Ho Hp Hq. apply contains_true_iff. split; [|lia].
  apply same_network_iff. split; [lia|]. rewrite Hp.
  apply constructed_value_range in Hs, Ho.
  rewrite !Z.shiftr_div_pow2 by lia.
  rewrite !Z.div_small by (simpl; lia). reflexivity.
Qed.

Lemma prefix_zero_contains_all_witness :
  Address.__contains__ (Address.mk "0.0.0.0/0" "" 0 0 "0.0.0.0/0")
    (Address.PyAddress (Address.mk "200.1.2.3/32" "" 3355509251 32 "200.1.2.3/32"))
  = Ok true.
Proof.
  apply prefix_zero_contains_all.
  - exists "0.0.0.0/0", "". vm_compute. reflexivity.
  - exists "200.1.2.3/32", "". vm_compute. reflexivity.
  - reflexivity.
  - simpl. lia.
Defined.

(** ** The dict *)

Lemma dict_set_new {V} (d : dict V) k v :
  dict_get d k = None -> dict_set d k v = (d ++ [(k, v)])%list.
Proof.
  induction d as [|[k' v'] d IH]; simpl; [reflexivity|].
  destruct (String.eqb k' k); [discriminate|]. intros H. now rewrite IH.
Qed.

Lemma dict_get_set_eq {V} (d : dict V) k v : dict_get (dict_set d k v) k = Some v.
Proof.
  induction d as [|[k' v'] d IH]; simpl.
  - now rewrite String.eqb_refl.
  - destruct (String.eqb k' k) eqn:E; simpl; rewrite E; [reflexivity | exact IH].
Qed.

Lemma dict_get_set_ne {V} (d : dict V) k k' v :
  k <> k' -> dict_get (dict_set d k v) k' = dict_get d k'.
Proof.
  intros Hne. induction d as [|[k0 v0] d IH]; simpl.
  - destruct (String.eqb_spec k k'); [congruence | reflexivity].
  - destruct (String.eqb_spec k0 k) as [->|Hk]; simpl.
    + destruct (String.eqb_spec k k'); [congruence | reflexivity].
    + destruct (String.eqb k0 k'); [reflexivity | exact IH].
Qed.

Lemma dict_values_set_new {V} (d : dict V) k v :
  dict_get d k = None ->
  dict_values (dict_set d k v) = (dict_values d ++ [v])%list.
Proof.
  intros H. unfold dict_values. rewrite dict_set_new by assumption.
  now rewrite map_app.
Qed.

(** ** Searching the store *)

Lemma select_in_cons (c r : Address.t) (l : list Address.t) :
  IPManager.select_in c (r :: l)
  = (b ← Address.__contains__ c (Address.PyAddress r);
     l' ← IPManager.select_in c l;
     Ok (if b : bool then r :: l' else l')).
Proof. reflexivity. Qed.

Lemma select_in_filter (c : Address.t) (l : list Address.t) :
  Address.prefix c <= 32 ->
  IPManager.select_in c l
  = Ok (filter (fun r => Address.__contains__ c (Address.PyAddress r) = Ok true) l).
Proof.
  intros Hp. induction l as [|r l IH]; [reflexivity|].
  rewrite select_in_cons, IH, filter_cons.
  case_decide as Hd; rewrite (contains_eval c r Hp) in Hd |- *;
    destruct (_ && _); simpl; congruence.
Qed.

Lemma select_in_raise (c : Address.t) (l : list Address.t) :
  32 < Address.prefix c -> l <> [] ->
  IPManager.select_in c l = Raise NegativeShiftCount.
Proof.
  intros Hp Hl. destruct l as [|r l]; [congruence|].
  now rewrite select_in_cons, contains_raise.
Qed.


Lemma main_store_eq :
  snd main = Ok main_store /\
  dict_values (IPManager._storage main_store) = [host18; host19; host20; net16].
Proof. split; vm_compute; reflexivity. Qed.


(** ** Inserting *)

(** C6: inserting an address that already is a key prints the skip message
    and returns normally with the manager as it was (same entries, same
    record, same note); the files are untouched. *)
Theorem insert_duplicate_is_skipped
    (self : IPManager.t) (address note : string) (w : World) :
  is_Some (IPManager.lookup self address) ->
  exists w',
    IPManager.insert self address note w = (w', Ok self) /\
    files w' = files w /\
    stdout w' = (stdout w ++ [skip_message address])%list.
Proof.
  intros [r Hr]. unfold IPManager.lookup in Hr. unfold IPManager.insert.
  rewrite Hr. eexists. split; [reflexivity|]. split; reflexivity.
Qed.

Lemma insert_duplicate_is_skipped_witness :
  exists w',
    IPManager.insert main_store "137.43.4.18" "other" (fst main) = (w', Ok main_store) /\
    files w' = files (fst main) /\
    stdout w' = (stdout (fst main) ++ [skip_message "137.43.4.18"])%list.
Proof.
  apply insert_duplicate_is_skipped. exists host18. reflexivity.
Defined.

(** C7: when the address is new and the open for appending raises,
    [insert] prints the error and returns normally with the manager as it
    was.  Conversely, whenever [insert] returns a manager with
    other entries, the append has succeeded: the file holds the new row. *)
Theorem insert_append_failure_keeps_entries :
  (forall self address note w,
     IPManager.lookup self address = None ->
     append_file w (IPManager._storage_fn self) (writerow [address; note]) = None ->
     IPManager.insert self address note w
     = (print w (str_of_error (IPManager._storage_fn self)), Ok self) /\
     files (print w (str_of_error (IPManager._storage_fn self))) = files w) /\
  (forall self address note w,
     IPManager._storage_fn self ∈ denied w ->
     append_file w (IPManager._storage_fn self) (writerow [address; note]) = None) /\
  (forall self address note w w' self',
     IPManager.insert self address note w = (w', Ok self') ->
     IPManager._storage self' <> IPManager._storage self ->
     append_file w (IPManager._storage_fn self) (writerow [address; note]) = Some w').
Proof.
  split; [|split].
  - intros self address note w Hl Ha. unfold IPManager.lookup in Hl.
    unfold IPManager.insert. rewrite Hl, Ha. split; reflexivity.
  - intros self address note w Hd. unfold append_file.
    destruct (decide _); [reflexivity | contradiction].
  - intros self address note w w' self'. unfold IPManager.insert.
    destruct (dict_get _ _).
    + intros H; inversion H; congruence.
    + destruct (append_file _ _ _) as [w1|].
      * destruct (Address.__init__ address note); simpl; intros H; inversion H; congruence.
      * intros H; inversion H; congruence.
Qed.

Lemma insert_append_failure_witness :
  IPManager.insert main_store "10.0.0.1" "new" locked_world
  = (print locked_world (str_of_error (IPManager._storage_fn main_store)),
     Ok main_store) /\
  files (print locked_world (str_of_error (IPManager._storage_fn main_store)))
  = files locked_world.
Proof.
  apply (proj1 insert_append_failure_keeps_entries).
  - reflexivity.
  - apply (proj1 (proj2 insert_append_failure_keeps_entries)). simpl. set_solver.
Defined.

(** ** Searching by note *)

Lemma prefix_spec a b : String.prefix a b = true <-> exists post, b = a ++ post.
Proof.
  revert b. induction a as [|c a IH]; intros b.
  - split; [intros _; now exists b | intros _; destruct b; reflexivity].
  - destruct b as [|d b]; simpl.
    + split; [discriminate | intros [post H]; discriminate].
    + destruct (ascii_dec c d) as [->|Hne].
      * rewrite IH. split; intros [post H]; exists post; simpl in *; congruence.
      * split; [discriminate | intros [post H]; simpl in H; congruence].
Qed.

Lemma str_contains_unfold sub s :
  str_contains sub s
  = String.prefix sub s ||
    match s with
    | EmptyString => false
    | String _ r => str_contains sub r
    end.
Proof. destruct s; reflexivity. Qed.

Lemma str_contains_spec sub s : str_contains sub s = true <-> substring_of sub s.
Proof.
  unfold substring_of. split.
  - induction s as [|c r IH]; rewrite str_contains_unfold;
      intros H; apply orb_true_iff in H as [H|H].
    + apply prefix_spec in H as [post H]. now exists "", post.
    + discriminate.
    + apply prefix_spec in H as [post H]. now exists "", post.
    + destruct (IH H) as (pre & post & ->). now exists (String c pre), post.
  - intros (pre & post & ->). induction pre as [|c pre IH];
      rewrite str_contains_unfold.
    + apply orb_true_iff. left. apply prefix_spec. now exists post.
    + apply orb_true_iff. right. exact IH.
Qed.

#[global] Instance substring_of_dec sub s : Decision (substring_of sub s).
Proof.
  destruct (str_contains sub s) eqn:E.
  - left. now apply str_contains_spec.
  - right. intros H. apply str_contains_spec in H. congruence.
Defined.

(** C9: [addrs_by_note] returns, in the order of the dict, exactly the
    stored records whose note has the given text as a literal substring;
    the empty text selects every stored record. *)
Theorem addrs_by_note_selects_substring :
  (forall self s,
     IPManager.addrs_by_note self s
     = filter (fun r => substring_of s (Address.note r))
              (dict_values (IPManager._storage self))) /\
  (forall self s r,
     r ∈ IPManager.addrs_by_note self s <->
     r ∈ dict_values (IPManager._storage self) /\
     exists pre post, Address.note r = pre ++ s ++ post) /\
  (forall self,
     IPManager.addrs_by_note self "" = dict_values (IPManager._storage self)) /\
  IPManager.addrs_by_note main_store "host" = [host18; host19; host20] /\
  IPManager.addrs_by_note main_store "Host" = [].
Proof.
  assert (forall self s,
     IPManager.addrs_by_note self s
     = filter (fun r => substring_of s (Address.note r))
              (dict_values (IPManager._storage self))) as E.
  { intros self s. unfold IPManager.addrs_by_note. apply list_filter_iff.
    intros r. apply str_contains_spec. }
  split; [exact E|]. split; [|split; [|split]].
  - intros self s r. rewrite E, list_elem_of_filter. unfold substring_of. tauto.
  - intros self. unfold IPManager.addrs_by_note.
    induction (dict_values (IPManager._storage self)) as [|r l IH]; [reflexivity|].
    rewrite filter_cons_True; [now rewrite IH|].
    apply str_contains_spec. now exists "", (Address.note r).
  - vm_compute. reflexivity.
  - vm_compute. reflexivity.
Qed.

(** ** Prefixes above 32 *)

(** C10, the claim as stated fails twice.  On a manager without records
    [addrs_by_cidr] returns the empty list for ["1.2.3.4/40"]: there is no
    record to test, so nothing raises.  And the constructor refuses an
    integer prefix token of 4301 digits, which [int] does not convert. *)
Lemma prefix_above_32_counterexample :
  (exists w m c,
     IPManager.__init__ "storage.csv" empty_world = (w, Ok m) /\
     Address.__init__ "1.2.3.4/40" "" = Ok c /\ 32 < Address.prefix c /\
     IPManager.addrs_by_cidr m "1.2.3.4/40" = Ok []) /\
  (exists token,
     token = string_of_list_ascii (repeat "1"%char 4301) /\
     count_digits token = Z.of_nat (String.length token) /\
     Address.__init__ ("1.2.3.4/" ++ token) "" = Raise InvalidPrefixFormat).
Proof.
  split.
  - do 3 eexists. split; [vm_compute; reflexivity|].
    split; [vm_compute; reflexivity|]. split; [simpl; lia | reflexivity].
  - eexists. split; [reflexivity|]. split; vm_compute; reflexivity.
Qed.

(** C10, amended: the constructor takes the integer the prefix token
    denotes, without a range check, as long as the token has no more than
    the 4300 digits [int] converts; so ["1.2.3.4/40"] yields a record of
    prefix 40.  For a record whose prefix exceeds 32 the containment test
    raises on the negative shift count, whatever the other record is, and so
    does [addrs_by_cidr] for such a CIDR text when the store has a record to
    test; on an empty store it returns the empty list. *)
Theorem prefix_above_32_raises :
  (forall v n p,
     has_char "/" v = false ->
     inet_text (Address._normalize_addr v) ->
     (String.length (pretty (Z.abs p)) <= 4300)%nat ->
     exists r, Address.__init__ (v ++ "/" ++ pretty p) n = Ok r /\
               Address.prefix r = p) /\
  (exists r, Address.__init__ "1.2.3.4/40" "" = Ok r /\ Address.prefix r = 40) /\
  (forall self other,
     32 < Address.prefix self ->
     Address.__contains__ self (Address.PyAddress other) = Raise NegativeShiftCount) /\
  (forall self cidr c,
     Address.__init__ cidr "" = Ok c -> 32 < Address.prefix c ->
     IPManager._storage self <> [] ->
     IPManager.addrs_by_cidr self cidr = Raise NegativeShiftCount) /\
  (forall self cidr c,
     Address.__init__ cidr "" = Ok c -> IPManager._storage self = [] ->
     IPManager.addrs_by_cidr self cidr = Ok []) /\
  IPManager.addrs_by_cidr main_store "1.2.3.4/40" = Raise NegativeShiftCount.
Proof.
  split; [|split; [|split; [|split; [|split]]]].
  - intros v n p Hv Ht Hp. apply inet_aton_spec in Ht as (b & Hb).
    unfold Address.__init__.
    assert (Address.split_prefix (v ++ "/" ++ pretty p) = (v, pretty p)) as ->.
    { unfold Address.split_prefix.
      change (v ++ "/" ++ pretty p) with (v ++ String "/" (pretty p)).
      now rewrite split_once_app. }
    rewrite Hb, (py_int_pretty p Hp). eexists. split; reflexivity.
  - eexists. split; [vm_compute; reflexivity | reflexivity].
  - exact contains_raise.
  - intros self cidr c Hc Hp Hne. unfold IPManager.addrs_by_cidr. rewrite Hc. simpl.
    apply select_in_raise; [assumption|].
    unfold dict_values. destruct (IPManager._storage self); [congruence | discriminate].
  - intros self cidr c Hc He. unfold IPManager.addrs_by_cidr. rewrite Hc, He. reflexivity.
  - vm_compute. reflexivity.
Qed.

(** ** Reading back what the writer wrote *)

Lemma feed_app r a : forall b,
  feed r (a ++ b) = (r' ← feed r a; feed r' b).
Proof.
  revert r. induction a as [|c a IH]; intros r b; simpl; [reflexivity|].
  destruct (parse_process_char r (Some c)) as [r1|e]; simpl; [apply IH | reflexivity].
Qed.

Lemma readlines_from_first cur s :
  cur <> "" -> exists x rest, readlines_from cur s = (cur ++ x) :: rest.
Proof.
  revert cur. induction s as [|c s IH]; intros cur Hc; simpl.
  - destruct (String.eqb_spec cur ""); [congruence|].
    exists "", []. now rewrite append_nil_r.
  - destruct (Ascii.eqb c LF).
    + eauto.
    + destruct (IH (cur ++ String c "")) as (x & rest & ->).
      { destruct cur; discriminate. }
      exists (String c x), rest. now rewrite append_assoc.
Qed.

Lemma csv_reader_from_raise r0 cur s e :
  cur <> "" -> feed r0 cur = Raise e ->
  csv_reader_from r0 (readlines_from cur s) = Fail e.
Proof.
  intros Hc Hf. destruct (readlines_from_first cur s Hc) as (x & rest & ->).
  simpl. rewrite feed_app, Hf. reflexivity.
Qed.

Lemma csv_reader_from_nil_reset : csv_reader_from parse_reset [] = Done.
Proof. reflexivity. Qed.

Lemma run_readlines s : forall r0 cur r,
  feed r0 cur = Ok r ->
  csv_reader_from r0 (readlines_from cur s)
  = run r (negb (String.eqb cur "")) s.
Proof.
  induction s as [|c s IH]; intros r0 cur r Hf.
  - simpl. destruct (String.eqb_spec cur "") as [->|Hne]; simpl.
    + simpl in Hf. inversion Hf. reflexivity.
    + rewrite Hf. simpl. unfold end_line.
      destruct (parse_process_char r None) as [r'|e]; [|reflexivity].
      destruct (is_start_record (state r')); reflexivity.
  - simpl readlines_from. simpl run.
    destruct (Ascii.eqb_spec c LF) as [->|Hne].
    + simpl csv_reader_from. rewrite feed_app, Hf. simpl.
      destruct (parse_process_char r (Some LF)) as [r1|e]; simpl; [|reflexivity].
      unfold end_line.
      destruct (parse_process_char r1 None) as [r2|e]; [|reflexivity].
      destruct (is_start_record (state r2)).
      * f_equal. now apply (IH parse_reset "" parse_reset).
      * now apply (IH r2 "" r2).
    + destruct (parse_process_char r (Some c)) as [r1|e] eqn:Hp.
      * rewrite (IH r0 (cur ++ String c "") r1).
        -- destruct cur; reflexivity.
        -- rewrite feed_app, Hf. simpl. now rewrite Hp.
      * apply csv_reader_from_raise.
        -- destruct cur; discriminate.
        -- rewrite feed_app, Hf. simpl. now rewrite Hp.
Qed.

Lemma csv_reader_run s : csv_reader (readlines s) = run parse_reset false s.
Proof. apply (run_readlines s parse_reset "" parse_reset). reflexivity. Qed.

Lemma quotechar_not_nl : is_nl quotechar = false.
Proof. reflexivity. Qed.

Lemma universal_newlines_app_char b x c y :
  is_nl c = false ->
  universal_newlines b (x ++ String c y)
  = universal_newlines b x ++ String c (universal_newlines false y).
Proof.
  intros Hc. unfold is_nl in Hc. apply orb_false_iff in Hc as [Hlf Hcr].
  revert b. induction x as [|d x IH]; intros b; simpl.
  - now rewrite Hcr, Hlf.
  - destruct (Ascii.eqb d CR); [now rewrite IH|].
    destruct (Ascii.eqb d LF); [destruct b; now rewrite IH|].
    now rewrite IH.
Qed.

Lemma universal_newlines_escape f : forall b,
  universal_newlines b (escape_quotes f) = escape_quotes (universal_newlines b f).
Proof.
  induction f as [|c f IH]; intros b; [reflexivity|].
  destruct (Ascii.eqb_spec c quotechar) as [->|Hq].
  - simpl. now rewrite IH.
  - apply Ascii.eqb_neq in Hq.
    destruct (Ascii.eqb_spec c CR) as [->|Hcr]; [simpl; now rewrite IH|].
    apply Ascii.eqb_neq in Hcr.
    destruct (Ascii.eqb_spec c LF) as [->|Hlf].
    + destruct b; simpl; now rewrite IH.
    + apply Ascii.eqb_neq in Hlf. simpl. rewrite Hq. simpl.
      rewrite Hcr, Hlf. simpl. rewrite Hq. now rewrite IH.
Qed.

Lemma universal_newlines_length f : forall b,
  (String.length (universal_newlines b f) <= String.length f)%nat.
Proof.
  induction f as [|c f IH]; intros b; simpl; [lia|].
  destruct (Ascii.eqb c CR); simpl; [specialize (IH true); lia|].
  destruct (Ascii.eqb c LF); [destruct b|]; simpl;
    specialize (IH false); lia.
Qed.

Lemma universal_newlines_no_cr f :
  has_char CR f = false -> universal_newlines false f = f.
Proof.
  induction f as [|c f IH]; simpl; [reflexivity|]. intros H.
  apply orb_false_iff in H as [Hc Hf]. rewrite Hc.
  destruct (Ascii.eqb_spec c LF) as [->|_]; now rewrite IH.
Qed.

Lemma parse_add_char_ok r c :
  Z.of_nat (String.length (field r)) < field_limit ->
  parse_add_char r c = Ok (mkReader (state r) (fields r) (field r ++ String c "")).
Proof.
  intros H. unfold parse_add_char.
  replace (field_limit <=? _) with false by (symmetry; apply Z.leb_gt; lia).
  reflexivity.
Qed.



Lemma step_quoted_plain fs f c :
  Ascii.eqb c quotechar = false ->
  Z.of_nat (String.length f) < field_limit ->
  parse_process_char (mkReader IN_QUOTED_FIELD fs f) (Some c)
  = Ok (mkReader IN_QUOTED_FIELD fs (f ++ String c "")).
Proof.
  intros Hq Hl. unfold parse_process_char. simpl. rewrite Hq.
  now rewrite parse_add_char_ok.
Qed.

Lemma step_quoted_quote fs f :
  parse_process_char (mkReader IN_QUOTED_FIELD fs f) (Some quotechar)
  = Ok (mkReader QUOTE_IN_QUOTED_FIELD fs f).
Proof. reflexivity. Qed.

Lemma step_quote_quote fs f :
  Z.of_nat (String.length f) < field_limit ->
  parse_process_char (mkReader QUOTE_IN_QUOTED_FIELD fs f) (Some quotechar)
  = Ok (mkReader IN_QUOTED_FIELD fs (f ++ String quotechar "")).
Proof.
  intros Hl. unfold parse_process_char. simpl.
  now rewrite parse_add_char_ok.
Qed.

Lemma fits_app_lt f c g :
  fits (f ++ String c g) -> Z.of_nat (String.length f) < field_limit.
Proof.
  unfold fits. rewrite length_append. simpl. lia.
Qed.

Lemma run_cons r mid c s :
  run r mid (String c s)
  = match parse_process_char r (Some c) with
    | Raise e => Fail e
    | Ok r1 =>
        if Ascii.eqb c LF then end_line r1 (fun r2 => run r2 false s)
        else run r1 true s
    end.
Proof. reflexivity. Qed.

Lemma escape_quotes_cons c g :
  escape_quotes (String c g)
  = if Ascii.eqb c quotechar
    then String quotechar (String quotechar (escape_quotes g))
    else String c (escape_quotes g).
Proof. reflexivity. Qed.

Lemma append_cons c (a b : string) : String c a ++ b = String c (a ++ b).
Proof. reflexivity. Qed.

(** Inside a quoted field the reader collects the escaped text of [g] up
    to the closing quote. *)
Lemma run_quoted g : forall fs f mid rest,
  fits (f ++ g) ->
  run (mkReader IN_QUOTED_FIELD fs f) mid (escape_quotes g ++ String quotechar rest)
  = run (mkReader QUOTE_IN_QUOTED_FIELD fs (f ++ g)) true rest.
Proof.
  induction g as [|c g IH]; intros fs f mid rest Hfit.
  - rewrite append_nil_r. reflexivity.
  - pose proof (fits_app_lt _ _ _ Hfit) as Hlt.
    assert (fits ((f ++ String c "") ++ g)) as Hfit'
      by (now rewrite append_assoc).
    replace (f ++ String c g) with ((f ++ String c "") ++ g)
      by (now rewrite append_assoc).
    rewrite escape_quotes_cons.
    destruct (Ascii.eqb_spec c quotechar) as [->|Hq].
    + rewrite !append_cons, run_cons, step_quoted_quote.
      change (Ascii.eqb quotechar LF) with false. cbv iota.
      rewrite run_cons, step_quote_quote by assumption.
      change (Ascii.eqb quotechar LF) with false. cbv iota.
      now apply IH.
    + apply Ascii.eqb_neq in Hq.
      rewrite append_cons, run_cons, step_quoted_plain by assumption.
      destruct (Ascii.eqb c LF); [|now apply IH].
      unfold end_line. change (parse_process_char ?r None) with (Ok r).
      cbv iota beta. change (is_start_record _) with false. cbv iota.
      now apply IH.
Qed.

Lemma writerow_text a n rest :
  writerow [a; n] ++ rest = row_text a n lineterminator rest.
Proof.
  unfold writerow, row_text, quote_field. simpl join.
  rewrite !append_cons, !append_assoc, !append_cons.
  rewrite !append_assoc. reflexivity.
Qed.

Lemma universal_newlines_row b a n rest :
  universal_newlines b (writerow [a; n] ++ rest)
  = row_text (universal_newlines false a) (universal_newlines false n)
      (String LF "") (universal_newlines false rest).
Proof.
  rewrite writerow_text. unfold row_text.
  change (universal_newlines b (String quotechar ?x))
    with (String quotechar (universal_newlines false x)).
  rewrite universal_newlines_app_char by reflexivity.
  change (universal_newlines false (String delimiter (String quotechar ?x)))
    with (String delimiter (String quotechar (universal_newlines false x))).
  rewrite universal_newlines_app_char by reflexivity.
  rewrite !universal_newlines_escape. reflexivity.
Qed.

Lemma run_row a n rest :
  fits a -> fits n ->
  run parse_reset false (row_text a n (String LF "") rest)
  = Row [a; n] (run parse_reset false rest).
Proof.
  intros Ha Hn. unfold row_text.
  rewrite run_cons.
  change (parse_process_char parse_reset (Some quotechar))
    with (Ok (mkReader IN_QUOTED_FIELD [] "")).
  change (Ascii.eqb quotechar LF) with false. cbv iota.
  rewrite run_quoted by exact Ha.
  rewrite run_cons.
  change (parse_process_char (mkReader QUOTE_IN_QUOTED_FIELD [] ("" ++ a)) (Some delimiter))
    with (Ok (mkReader START_FIELD [a] "")).
  change (Ascii.eqb delimiter LF) with false. cbv iota.
  rewrite run_cons.
  change (parse_process_char (mkReader START_FIELD [a] "") (Some quotechar))
    with (Ok (mkReader IN_QUOTED_FIELD [a] "")).
  change (Ascii.eqb quotechar LF) with false. cbv iota.
  rewrite run_quoted by exact Hn.
  rewrite append_cons, run_cons. reflexivity.
Qed.

Lemma fits_universal_newlines f : fits f -> fits (universal_newlines false f).
Proof.
  unfold fits. pose proof (universal_newlines_length f false). lia.
Qed.

Lemma written_app l1 l2 : written (l1 ++ l2) = written l1 ++ written l2.
Proof.
  induction l1 as [|[a n] l1 IH]; [reflexivity|].
  change (written (((a, n) :: l1) ++ l2))
    with (writerow [a; n] ++ written (l1 ++ l2)).
  rewrite IH. symmetry. apply append_assoc.
Qed.

Lemma csv_reader_written l :
  Forall row_fits l ->
  csv_reader (readlines (universal_newlines false (written l)))
  = rows_of (map as_read l).
Proof.
  intros Hl. rewrite csv_reader_run.
  induction Hl as [|[a n] l [Ha Hn] Hl IH]; [reflexivity|].
  change (written ((a, n) :: l)) with (writerow [a; n] ++ written l).
  rewrite universal_newlines_row.
  rewrite run_row by (now apply fits_universal_newlines).
  rewrite IH. reflexivity.
Qed.

Lemma load_rows_app l1 l2 : forall st,
  IPManager.load_rows (rows_of (l1 ++ l2)) st
  = (st' ← IPManager.load_rows (rows_of l1) st; IPManager.load_rows (rows_of l2) st').
Proof.
  induction l1 as [|row l1 IH]; intros st; [reflexivity|].
  simpl. destruct row as [|a [|n [|x row]]]; try reflexivity.
  destruct (Address.__init__ a n); simpl; [apply IH | reflexivity].
Qed.

(** *** Reloading after an insert that went through *)

Section Reload.

Variables (self : IPManager.t) (address note : string) (w : World).
Variables (old : list (string * string)) (st0 : dict Address.t) (a : Address.t).

Let fn : string := IPManager._storage_fn self.

(** The file holds the rows written so far, and could be loaded. *)
Hypothesis file_written : files w !! fn = Some (written old).
Hypothesis old_fit : Forall row_fits old.
Hypothesis loaded : IPManager._load_storage fn w = Ok st0.

(** The insert goes through: the address is new, the open is not refused,
    the constructor accepts the address. *)
Hypothesis is_new : IPManager.lookup self address = None.
Hypothesis permitted : fn ∉ denied w.
Hypothesis accepted : Address.__init__ address note = Ok a.

(** Neither text has a carriage return, and both fit the reader. *)
Hypothesis address_no_cr : has_char CR address = false.
Hypothesis note_no_cr : has_char CR note = false.
Hypothesis address_fits : fits address.
Hypothesis note_fits : fits note.

Let w' : World :=
  mkWorld (<[fn := written old ++ writerow [address; note]]> (files w))
          (denied w) (stdout w).

Lemma insert_appends :
  append_file w fn (writerow [address; note]) = Some w'.
Proof.
  unfold append_file. destruct (decide _); [contradiction|].
  rewrite file_written. reflexivity.
Qed.

Lemma init_leaves_file : append_file w' fn "" = Some w'.
Proof.
  unfold append_file. destruct (decide _); [contradiction|].
  unfold w'. simpl. rewrite lookup_insert_eq. simpl.
  rewrite append_nil_r, insert_insert_eq. reflexivity.
Qed.

Lemma reload_reads_new_row :
  IPManager._load_storage fn w' = Ok (dict_set st0 address a).
Proof.
  pose proof loaded as Hload.
  unfold IPManager._load_storage, read_file in Hload |- *.
  rewrite file_written in Hload. simpl in Hload.
  rewrite csv_reader_written in Hload by assumption.
  unfold w'. simpl. rewrite lookup_insert_eq. simpl.
  replace (writerow [address; note]) with (written [(address, note)])
    by exact (append_nil_r (writerow [address; note])).
  rewrite <- written_app.
  rewrite csv_reader_written
    by (apply Forall_app; split; [assumption | repeat constructor; assumption]).
  rewrite map_app, load_rows_app, Hload. simpl.
  unfold as_read. simpl.
  rewrite !universal_newlines_no_cr by assumption.
  rewrite accepted. reflexivity.
Qed.

(** X1: a manager made from the same path after the insert finds the
    address, with the inserted note: delimiters, quotes and line feeds in
    the note come back as they were written. *)
Theorem insert_reload_roundtrip :
  exists w1 self' w2 m r,
    IPManager.insert self address note w = (w1, Ok self') /\
    IPManager.lookup self' address = Some a /\
    IPManager.__init__ (IPManager._storage_fn self) w1 = (w2, Ok m) /\
    IPManager.lookup m address = Some r /\
    Address.note r = note.
Proof.
  exists w', (IPManager.mk fn (dict_set (IPManager._storage self) address a)),
    w', (IPManager.mk fn (dict_set st0 address a)), a.
  split; [|split; [|split; [|split]]].
  - unfold IPManager.insert. unfold IPManager.lookup in is_new.
    rewrite is_new. fold fn. rewrite insert_appends, accepted. reflexivity.
  - apply dict_get_set_eq.
  - fold fn. unfold IPManager.__init__.
    rewrite init_leaves_file, reload_reads_new_row. reflexivity.
  - apply dict_get_set_eq.
  - pose proof accepted as Ha.
    apply init_inv in Ha as (b & p & _ & _ & ->). reflexivity.
Qed.

End Reload.

Lemma insert_reload_roundtrip_witness :
  exists w1 self' w2 m r,
    IPManager.insert main_store "10.0.0.1" "a,b" (fst main) = (w1, Ok self') /\
    IPManager.lookup self' "10.0.0.1"
    = Some (Address.mk "10.0.0.1" "a,b" 167772161 32 "10.0.0.1/32") /\
    IPManager.__init__ (IPManager._storage_fn main_store) w1 = (w2, Ok m) /\
    IPManager.lookup m "10.0.0.1" = Some r /\
    Address.note r = "a,b".
Proof.
  apply (insert_reload_roundtrip main_store "10.0.0.1" "a,b" (fst main)
           [("137.43.4.18", "host"); ("137.43.4.19", "host");
            ("137.43.4.20/32", "host/cidr"); ("137.43/16", "net")]
           (IPManager._storage main_store)).
  - vm_compute. reflexivity.
  - repeat constructor; vm_compute; discriminate.
  - vm_compute. reflexivity.
  - reflexivity.
  - simpl. set_solver.
  - vm_compute. reflexivity.
  - reflexivity.
  - reflexivity.
  - vm_compute. discriminate.
  - vm_compute. discriminate.
Defined.

(** C5, where the code falls short of the claim.  First: a note with a
    carriage return is stored as given, but a manager made afterwards from
    the same path reads it back with a line feed in its place, since the
    file is read in text mode.  Second: [insert] appends the row before the
    constructor has accepted the address, so an insert that raises leaves
    its row in the file; after a later insert that goes through, making a
    manager from the same path raises. *)
Theorem reload_after_insert_breaks :
  (exists w0 m0 w1 m1 w2 m2 r1 r2,
     IPManager.__init__ "storage.csv" empty_world = (w0, Ok m0) /\
     IPManager.insert m0 "137.43.4.18" cr_note w0 = (w1, Ok m1) /\
     IPManager.lookup m1 "137.43.4.18" = Some r1 /\
     Address.note r1 = cr_note /\
     IPManager.__init__ "storage.csv" w1 = (w2, Ok m2) /\
     IPManager.lookup m2 "137.43.4.18" = Some r2 /\
     Address.note r2 = lf_note /\
     Address.note r2 <> cr_note) /\
  (exists w0 m0 w1 w2 m2 w3,
     IPManager.__init__ "storage.csv" empty_world = (w0, Ok m0) /\
     IPManager.insert m0 "999.1.1.1" "x" w0 = (w1, Raise InvalidAddressFormat) /\
     files w1 !! "storage.csv" = Some (writerow ["999.1.1.1"; "x"]) /\
     IPManager.insert m0 "137.43.4.18" "host" w1 = (w2, Ok m2) /\
     IPManager.lookup m2 "137.43.4.18" = Some host18 /\
     IPManager.__init__ "storage.csv" w2 = (w3, Raise InvalidAddressFormat)).
Proof.
  split.
  - do 8 eexists.
    split; [vm_compute; reflexivity|]. split; [vm_compute; reflexivity|].
    split; [vm_compute; reflexivity|]. split; [reflexivity|].
    split; [vm_compute; reflexivity|]. split; [vm_compute; reflexivity|].
    split; [reflexivity | discriminate].
  - do 6 eexists.
    split; [vm_compute; reflexivity|]. split; [vm_compute; reflexivity|].
    split; [vm_compute; reflexivity|]. split; [vm_compute; reflexivity|].
    split; vm_compute; reflexivity.
Qed.

(** ** Further properties of the constructor and of [insert] *)

Lemma split_once_none sep s : has_char sep s = false -> split_once sep s = None.
Proof.
  induction s as [|c s IH]; simpl; [reflexivity|]. intros H.
  apply orb_false_iff in H as [Hc Hs]. now rewrite Hc, (IH Hs).
Qed.

(** X2: the numeric value of a text of decimal octets.  For one to four
    integers in [0, 255] written in decimal and joined by dots, followed by
    a slash and a prefix token that [int] converts, the constructor returns
    a record whose value is the big-endian number of the octets, the missing
    ones counting as zero: a short form such as ["137.43"] has the value of
    ["137.43.0.0"].  The value lies in [0, 2^32), and the same text without
    a prefix gives the same value with prefix 32. *)
Theorem value_is_big_endian_of_padded (ns : list Z) (p n : string) (q : Z) :
  (1 <= List.length ns <= 4)%nat -> Forall is_byte ns ->
  py_int p = Some q ->
  exists r r0,
    Address.__init__ (join "." (map pretty ns) ++ "/" ++ p) n = Ok r /\
    Address.value r
    = nth 0 ns 0 * 2 ^ 24 + nth 1 ns 0 * 2 ^ 16 + nth 2 ns 0 * 2 ^ 8 + nth 3 ns 0 /\
    0 <= Address.value r < 2 ^ 32 /\
    Address.prefix r = q /\
    Address.__init__ (join "." (map pretty ns)) n = Ok r0 /\
    Address.value r0 = Address.value r /\ Address.prefix r0 = 32.
Proof.
  intros Hlen Hns Hq.
  assert (has_char "/" (join "." (map pretty ns)) = false) as Hslash.
  { apply join_no_char; [reflexivity|].
    apply pretty_octets_no_char; [assumption | reflexivity | discriminate..]. }
  assert (Address.split_prefix (join "." (map pretty ns) ++ "/" ++ p)
          = (join "." (map pretty ns), p)) as E1.
  { unfold Address.split_prefix.
    change (join "." (map pretty ns) ++ "/" ++ p)
      with (join "." (map pretty ns) ++ String "/" p).
    now rewrite split_once_app. }
  assert (Address.split_prefix (join "." (map pretty ns))
          = (join "." (map pretty ns), "32")) as E2.
  { unfold Address.split_prefix. now rewrite split_once_none. }
  unfold Address.__init__. rewrite E1, E2.
  rewrite (inet_aton_pretty_octets ns Hlen Hns), Hq.
  change (py_int "32") with (Some 32).
  do 2 eexists. split; [reflexivity|]. simpl.
  assert (unpack_be (ns ++ repeat 0 (4 - List.length ns))%list
          = nth 0 ns 0 * 2 ^ 24 + nth 1 ns 0 * 2 ^ 16 + nth 2 ns 0 * 2 ^ 8 + nth 3 ns 0
          /\ 0 <= unpack_be (ns ++ repeat 0 (4 - List.length ns))%list < 2 ^ 32)
    as [Hv Hr].
  { destruct ns as [|n1 [|n2 [|n3 [|n4 [|n5 l]]]]]; simpl in Hlen; try lia;
      repeat match goal with
      | H : Forall is_byte (_ :: _) |- _ => inversion H; clear H; subst
      end; unfold is_byte in *; unfold unpack_be; simpl; lia. }
  rewrite Hv in *. repeat split; try reflexivity; apply Hr.
Qed.

Lemma value_is_big_endian_of_padded_witness :
  exists r r0,
    Address.__init__ (join "." (map pretty [137; 43]) ++ "/" ++ "16") "net" = Ok r /\
    Address.value r
    = nth 0 [137; 43] 0 * 2 ^ 24 + nth 1 [137; 43] 0 * 2 ^ 16
      + nth 2 [137; 43] 0 * 2 ^ 8 + nth 3 [137; 43] 0 /\
    0 <= Address.value r < 2 ^ 32 /\
    Address.prefix r = 16 /\
    Address.__init__ (join "." (map pretty [137; 43])) "net" = Ok r0 /\
    Address.value r0 = Address.value r /\ Address.prefix r0 = 32.
Proof.
  apply (value_is_big_endian_of_padded [137; 43] "16" "net" 16).
  - simpl. lia.
  - repeat (apply List.Forall_cons; [unfold is_byte; lia|]). apply List.Forall_nil.
  - reflexivity.
Defined.

(** X3: [insert] appends the row before the constructor has seen the
    address: when the constructor raises, the exception leaves [insert] with
    the row already in the file, and the manager as it was. *)
Theorem insert_appends_before_validating
    (self : IPManager.t) (address note : string) (w : World) (e : exn) :
  IPManager.lookup self address = None ->
  IPManager._storage_fn self ∉ denied w ->
  Address.__init__ address note = Raise e ->
  exists w',
    IPManager.insert self address note w = (w', Raise e) /\
    files w' !! IPManager._storage_fn self
    = Some (default "" (files w !! IPManager._storage_fn self)
            ++ writerow [address; note]).
Proof.
  intros Hnew Hperm He. unfold IPManager.lookup in Hnew.
  unfold IPManager.insert, append_file. rewrite Hnew.
  destruct (decide _); [contradiction|]. rewrite He.
  eexists. split; [reflexivity|]. simpl. apply lookup_insert_eq.
Qed.

Lemma insert_appends_before_validating_witness :
  exists w',
    IPManager.insert main_store "999.1.1.1" "x" (fst main)
    = (w', Raise InvalidAddressFormat) /\
    files w' !! IPManager._storage_fn main_store
    = Some (default "" (files (fst main) !! IPManager._storage_fn main_store)
            ++ writerow ["999.1.1.1"; "x"]).
Proof.
  apply insert_appends_before_validating.
  - reflexivity.
  - simpl. set_solver.
  - reflexivity.
Defined.

(** X4: after an insert that went through, [lookup] finds the new record
    under the literal text of the address, and the other keys are as before; a text
    that is not a key is not found, without an exception.  The key is the
    text as given: ["137.43/16"] and ["137.43.0.0/16"] are different keys. *)
Theorem lookup_after_insert
    (self self' : IPManager.t) (address note : string) (w w' : World) :
  IPManager.lookup self address = None ->
  IPManager.insert self address note w = (w', Ok self') ->
  IPManager._storage self' <> IPManager._storage self ->
  (exists r, IPManager.lookup self' address = Some r /\
             Address.addr r = address /\ Address.note r = note) /\
  (forall other, other <> address ->
     IPManager.lookup self' other = IPManager.lookup self other) /\
  dict_values (IPManager._storage self')
  = (dict_values (IPManager._storage self)
     ++ option_list (IPManager.lookup self' address))%list.
Proof.
  intros Hnew Hins Hch. unfold IPManager.lookup in *. unfold IPManager.insert in Hins.
  rewrite Hnew in Hins.
  destruct (append_file _ _ _) as [w1|]; [|inversion Hins; subst; congruence].
  destruct (Address.__init__ address note) as [a|e] eqn:Ha; simpl in Hins;
    [|discriminate].
  inversion Hins; subst w' self'. simpl. split; [|split].
  - exists a. split; [apply dict_get_set_eq|].
    apply init_inv in Ha as (b & p & _ & _ & ->). split; reflexivity.
  - intros other Hne. apply dict_get_set_ne. congruence.
  - rewrite dict_get_set_eq. simpl. now apply dict_values_set_new.
Qed.

Lemma lookup_after_insert_witness :
  exists m w1,
    IPManager.insert main_store "137.43.0.0/16" "same net" (fst main) = (w1, Ok m) /\
    (exists r, IPManager.lookup m "137.43.0.0/16" = Some r /\
               Address.addr r = "137.43.0.0/16" /\ Address.note r = "same net") /\
    IPManager.lookup m "137.43/16" = Some net16 /\
    IPManager.lookup m "137.43.4.21" = None.
Proof.
  destruct (IPManager.insert main_store "137.43.0.0/16" "same net" (fst main))
    as [w1 [m|e]] eqn:E; [|vm_compute in E; discriminate].
  exists m, w1. split; [reflexivity|].
  assert (IPManager._storage m <> IPManager._storage main_store) as Hch.
  { vm_compute in E. inversion E; subst. discriminate. }
  destruct (lookup_after_insert main_store m "137.43.0.0/16" "same net"
              (fst main) w1 eq_refl E Hch) as (Hr & Hother & _).
  split; [exact Hr|]. split.
  - rewrite Hother by discriminate. reflexivity.
  - rewrite Hother by discriminate. reflexivity.
Defined.

(** * More on containment *)

Lemma shiftr_coarser x y k j :
  k <= j -> Z.shiftr x (32 - j) = Z.shiftr y (32 - j) ->
  Z.shiftr x (32 - k) = Z.shiftr y (32 - k).
Proof.
  intros Hle E. replace (32 - k) with ((32 - j) + (j - k)) by lia.
  rewrite <- !Z.shiftr_shiftr by lia. now rewrite E.
Qed.

(** X5: containment is transitive: a block that contains a second block
    contains whatever the second block contains.  Nothing is asked of the
    records: both tests returning true already bounds the prefixes. *)
Theorem contains_transitive (a b c : Address.t) :
  Address.__contains__ a (Address.PyAddress b) = Ok true ->
  Address.__contains__ b (Address.PyAddress c) = Ok true ->
  Address.__contains__ a (Address.PyAddress c) = Ok true.
Proof.
  rewrite !contains_true_iff, !same_network_iff.
  intros [[Ha Eab] Hab] [[Hb Ebc] Hbc].
  split; [split; [assumption|] | lia].
  rewrite Eab. now apply (shiftr_coarser _ _ _ (Address.prefix b)).
Qed.

Lemma contains_transitive_witness :
  Address.__contains__ (Address.mk "137/8" "" 2298478592 8 "137/8")
    (Address.PyAddress host18) = Ok true.
Proof.
  apply (contains_transitive _ net16 host18); reflexivity.
Defined.

(** X6: two records contain each other exactly when they have the same
    prefix, at most 32, and the same network bits; for two hosts (prefix 32)
    that is the same numeric value. *)
Theorem contains_each_other (a b : Address.t) :
  (Address.__contains__ a (Address.PyAddress b) = Ok true /\
   Address.__contains__ b (Address.PyAddress a) = Ok true <->
   Address.prefix a = Address.prefix b /\ Address.prefix a <= 32 /\
   Z.shiftr (Address.value a) (32 - Address.prefix a)
   = Z.shiftr (Address.value b) (32 - Address.prefix a)) /\
  (Address.prefix a = 32 ->
   Address.__contains__ a (Address.PyAddress b) = Ok true ->
   Address.value b = Address.value a /\ 32 <= Address.prefix b).
Proof.
  split.
  - rewrite !contains_true_iff, !same_network_iff. split.
    + intros [[[Ha Eab] Hab] [[Hb Eba] Hba]]. repeat split; (lia || assumption).
    + intros (Hp & Hle & E). rewrite <- Hp. repeat split; (lia || congruence).
  - intros Hp H. apply contains_true_iff in H as [H Hle].
    apply same_network_iff in H as [_ E]. rewrite Hp in E. simpl in E.
    rewrite !Z.shiftr_0_r in E. split; [congruence | lia].
Qed.

(** X7: for records the constructor returns and a prefix [p] from 0 to 32,
    [self] contains [other] exactly when [other]'s prefix is at least [p]
    and [other]'s value lies in the block of [2 ^ (32 - p)] addresses that
    starts at [self]'s value with its low [32 - p] bits cleared. *)
Theorem contains_iff_in_block (self other : Address.t) :
  constructed self -> constructed other ->
  0 <= Address.prefix self <= 32 ->
  let size := 2 ^ (32 - Address.prefix self) in
  let base := Address.value self - Address.value self mod size in
  (Address.__contains__ self (Address.PyAddress other) = Ok true <->
   Address.prefix self <= Address.prefix other /\
   base <= Address.value other < base + size) /\
  base = Z.shiftl (Z.shiftr (Address.value self) (32 - Address.prefix self))
                  (32 - Address.prefix self) /\
  0 <= base /\ base + size <= 2 ^ 32.
Proof.
  intros Hs Ho Hp size base.
  apply constructed_value_range in Hs, Ho.
  assert (0 < size) as Hsz by (apply Z.pow_pos_nonneg; lia).
  assert (2 ^ 32 = size * 2 ^ Address.prefix self) as Hpow.
  { unfold size. rewrite <- Z.pow_add_r by lia. f_equal. lia. }
  pose proof (Z.div_mod (Address.value self) size ltac:(lia)) as Hdm.
  pose proof (Z.mod_pos_bound (Address.value self) size Hsz) as Hm.
  assert (base = size * (Address.value self / size)) as Hbase by (unfold base; lia).
  split; [|split; [|split]].
  - rewrite contains_true_iff, same_network_iff.
    rewrite !Z.shiftr_div_pow2 by lia. fold size.
    split.
    + intros [[_ E] Hle]. split; [assumption|].
      pose proof (Z.div_mod (Address.value other) size ltac:(lia)) as Hdo.
      pose proof (Z.mod_pos_bound (Address.value other) size Hsz) as Hmo.
      rewrite Hbase, E. lia.
    + intros [Hle [Hlo Hhi]]. split; [split; [lia|] | assumption].
      apply Z.div_unique_pos with (r := Address.value other - base); lia.
  - rewrite Z.shiftl_mul_pow2, Z.shiftr_div_pow2 by lia. fold size. lia.
  - rewrite Hbase. apply Z.mul_nonneg_nonneg; [lia|]. apply Z.div_pos; lia.
  - assert (Address.value self / size < 2 ^ Address.prefix self).
    { apply Z.div_lt_upper_bound; lia. }
    rewrite Hbase, Hpow. nia.
Qed.

Lemma contains_iff_in_block_witness :
  (Address.__contains__ net16 (Address.PyAddress host18) = Ok true <->
   16 <= 32 /\ 2301296640 <= 2301297682 < 2301296640 + 65536).
Proof.
  exact (proj1 (contains_iff_in_block net16 host18
    (ex_intro _ "137.43/16" (ex_intro _ "net" eq_refl))
    (ex_intro _ "137.43.4.18" (ex_intro _ "host" eq_refl))
    ltac:(simpl; lia))).
Defined.

(** * The store as a whole *)

Lemma dict_get_None {V} (d : dict V) k : dict_get d k = None <-> k ∉ map fst d.
Proof.
  induction d as [|[k' v] d IH]; simpl.
  - split; [intros _; apply not_elem_of_nil | reflexivity].
  - rewrite not_elem_of_cons.
    destruct (String.eqb_spec k' k) as [->|Hne].
    + split; [discriminate | intros [H _]; congruence].
    + rewrite IH. split; [intros H; split; [congruence | exact H] | tauto].
Qed.

Lemma dict_get_elem {V} (d : dict V) k v :
  dict_get d k = Some v -> (k, v) ∈ d.
Proof.
  induction d as [|[k' v'] d IH]; simpl; [discriminate|].
  destruct (String.eqb_spec k' k) as [->|Hne].
  - intros H. inversion H. apply list_elem_of_here.
  - intros H. apply list_elem_of_further. auto.
Qed.

Lemma dict_set_keys {V} (d : dict V) k v :
  map fst (dict_set d k v)
  = match dict_get d k with
    | Some _ => map fst d
    | None => (map fst d ++ [k])%list
    end.
Proof.
  induction d as [|[k' v'] d IH]; simpl; [reflexivity|].
  destruct (String.eqb k' k); simpl; [reflexivity|].
  rewrite IH. destruct (dict_get d k); reflexivity.
Qed.

Lemma dict_set_Forall {V} (P : string * V -> Prop) (d : dict V) k v :
  Forall P d -> (forall k', k' = k -> P (k', v)) -> Forall P (dict_set d k v).
Proof.
  intros Hd Hv. induction Hd as [|[k' v'] d Hkv Hd IH]; simpl.
  - repeat constructor. now apply Hv.
  - destruct (String.eqb_spec k' k) as [->|Hne].
    + constructor; [now apply Hv | assumption].
    + constructor; assumption.
Qed.

Lemma dict_set_keyed d k n r :
  keyed d -> Address.__init__ k n = Ok r -> keyed (dict_set d k r).
Proof.
  intros [Hnd Hall] Hr. split.
  - rewrite dict_set_keys. destruct (dict_get d k) eqn:E; [assumption|].
    apply NoDup_app. split; [assumption|]. split; [|apply NoDup_singleton].
    intros x Hx Hk. apply list_elem_of_singleton in Hk. subst x.
    apply dict_get_None in E. contradiction.
  - apply dict_set_Forall; [assumption|]. intros k' ->. now exists n.
Qed.

Lemma load_rows_keyed rs : forall st st',
  keyed st -> IPManager.load_rows rs st = Ok st' -> keyed st'.
Proof.
  induction rs as [|row rest IH|e]; intros st st' Hk H; simpl in H.
  - inversion H; subst; assumption.
  - destruct row as [|a [|n [|x row]]]; try discriminate.
    destruct (Address.__init__ a n) as [r|e] eqn:Hr; simpl in H; [|discriminate].
    eapply IH; [|exact H]. eapply dict_set_keyed; eassumption.
  - discriminate.
Qed.

Lemma keyed_nil : keyed [].
Proof. split; constructor. Qed.

Lemma reachable_keyed_storage m : reachable m -> keyed (IPManager._storage m).
Proof.
  induction 1 as [fn w w' m H | self address note w w' self' _ IH H].
  - unfold IPManager.__init__ in H.
    destruct (append_file w fn "") as [w1|]; [|inversion H].
    unfold IPManager._load_storage in H.
    destruct (read_file w1 fn) as [lines|]; [|inversion H].
    destruct (IPManager.load_rows (csv_reader lines) []) as [st|e] eqn:E;
      simpl in H; [|inversion H].
    inversion H; subst. simpl. eapply load_rows_keyed; [apply keyed_nil | exact E].
  - unfold IPManager.insert in H.
    destruct (dict_get (IPManager._storage self) address); [inversion H; subst; assumption|].
    destruct (append_file _ _ _); [|inversion H; subst; assumption].
    destruct (Address.__init__ address note) as [r|e] eqn:Hr; simpl in H; [|inversion H].
    inversion H; subst. simpl. eapply dict_set_keyed; eassumption.
Qed.

Lemma init_note_irrelevant a n n' r :
  Address.__init__ a n = Ok r ->
  Address.__init__ a n'
  = Ok (Address.mk a n' (Address.value r) (Address.prefix r) (Address.cidr r)).
Proof.
  unfold Address.__init__. destruct (Address.split_prefix a) as [v p].
  destruct (inet_aton _); [|discriminate].
  destruct (py_int p); [|discriminate].
  intros H. inversion H. reflexivity.
Qed.

Lemma insert_all_reachable l : forall self w w' self',
  reachable self -> insert_all self l w = (w', Ok self') -> reachable self'.
Proof.
  induction l as [|[a n] l IH]; intros self w w' self' Hr H; simpl in H.
  - inversion H; subst; assumption.
  - destruct (IPManager.insert self a n w) as [w1 [m|e]] eqn:E; [|inversion H].
    eapply IH; [|exact H]. eapply reach_insert; eassumption.
Qed.

Lemma main_store_reachable : reachable main_store.
Proof.
  pose proof (proj1 main_store_eq) as H. unfold main in H.
  destruct (IPManager.__init__ "storage.csv" empty_world) as [w [m|e]] eqn:E;
    [|simpl in H; discriminate].
  destruct (insert_all m _ w) as [w' r] eqn:E'. simpl in H. subst r.
  eapply insert_all_reachable; [|exact E']. eapply reach_init. exact E.
Qed.

(** X8: in every manager the program can reach, the keys of the mapping are
    pairwise different, and the record under a key was built from that very
    key: its [addr] is the key, and the constructor applied to the key and
    the record's note returns it. *)
Theorem reachable_store_is_keyed (m : IPManager.t) :
  reachable m ->
  NoDup (map fst (IPManager._storage m)) /\
  (forall k r, IPManager.lookup m k = Some r ->
     Address.addr r = k /\ Address.__init__ k (Address.note r) = Ok r) /\
  List.length (dict_values (IPManager._storage m))
  = List.length (map fst (IPManager._storage m)).
Proof.
  intros Hm. apply reachable_keyed_storage in Hm as [Hnd Hall].
  split; [assumption|]. split.
  - intros k r Hl. apply dict_get_elem in Hl.
    rewrite Forall_forall in Hall. destruct (Hall _ Hl) as [n Hn]. simpl in Hn.
    pose proof Hn as Hn'. apply init_inv in Hn' as (b & p & _ & _ & ->).
    simpl. split; [reflexivity | exact Hn].
  - unfold dict_values. now rewrite !length_map.
Qed.

Lemma reachable_store_is_keyed_witness :
  NoDup (map fst (IPManager._storage main_store)) /\
  (forall k r, IPManager.lookup main_store k = Some r ->
     Address.addr r = k /\ Address.__init__ k (Address.note r) = Ok r) /\
  List.length (dict_values (IPManager._storage main_store))
  = List.length (map fst (IPManager._storage main_store)).
Proof. exact (reachable_store_is_keyed main_store main_store_reachable). Defined.

(** X9: in a reachable manager every stored record is found again by the
    searches: by [addrs_by_note] with its own note, and, when its prefix is
    at most 32, by [addrs_by_cidr] with its own key as the CIDR text. *)
Theorem stored_record_is_found (m : IPManager.t) (k : string) (r : Address.t) :
  reachable m ->
  IPManager.lookup m k = Some r ->
  r ∈ IPManager.addrs_by_note m (Address.note r) /\
  (Address.prefix r <= 32 ->
   exists l, IPManager.addrs_by_cidr m k = Ok l /\ r ∈ l).
Proof.
  intros Hm Hl.
  assert (r ∈ dict_values (IPManager._storage m)) as Hin.
  { unfold dict_values. apply list_elem_of_fmap. exists (k, r).
    split; [reflexivity|]. now apply dict_get_elem. }
  split.
  - unfold IPManager.addrs_by_note. apply list_elem_of_filter. split; [|assumption].
    apply str_contains_spec. exists "", "". simpl. now rewrite append_nil_r.
  - intros Hp.
    apply reachable_keyed_storage in Hm as [_ Hall].
    rewrite Forall_forall in Hall.
    destruct (Hall _ (dict_get_elem _ _ _ Hl)) as [n Hn]. simpl in Hn.
    pose proof (init_note_irrelevant k n "" r Hn) as Hc.
    eexists. split.
    + unfold IPManager.addrs_by_cidr. rewrite Hc. simpl.
      apply select_in_filter. simpl. exact Hp.
    + apply list_elem_of_filter. split; [|assumption].
      rewrite contains_eval by (simpl; exact Hp). simpl.
      now rewrite Z.eqb_refl, Z.leb_refl.
Qed.

Lemma stored_record_is_found_witness :
  net16 ∈ IPManager.addrs_by_note main_store (Address.note net16) /\
  (Address.prefix net16 <= 32 ->
   exists l, IPManager.addrs_by_cidr main_store "137.43/16" = Ok l /\ net16 ∈ l).
Proof.
  exact (stored_record_is_found main_store "137.43/16" net16
           main_store_reachable eq_refl).
Defined.

(** X10: narrowing the CIDR narrows the result.  If the record of one CIDR
    text contains the record of a second one, whose prefix is at most 32,
    then what [addrs_by_cidr] returns for the second text is a sublist, in
    the same order, of what it returns for the first. *)
Theorem addrs_by_cidr_monotone
    (self : IPManager.t) (wide narrow : string) (cw cn : Address.t) :
  Address.__init__ wide "" = Ok cw ->
  Address.__init__ narrow "" = Ok cn ->
  Address.__contains__ cw (Address.PyAddress cn) = Ok true ->
  Address.prefix cn <= 32 ->
  exists lw ln,
    IPManager.addrs_by_cidr self wide = Ok lw /\
    IPManager.addrs_by_cidr self narrow = Ok ln /\
    ln `sublist_of` lw.
Proof.
  intros Hw Hn Hc Hp.
  assert (Address.prefix cw <= 32) as Hpw.
  { apply contains_true_iff in Hc as [_ Hle]. lia. }
  do 2 eexists. split; [|split].
  - unfold IPManager.addrs_by_cidr. rewrite Hw. simpl. now apply select_in_filter.
  - unfold IPManager.addrs_by_cidr. rewrite Hn. simpl. now apply select_in_filter.
  - rewrite <- (list_filter_filter_l
                 (fun r => Address.__contains__ cn (Address.PyAddress r) = Ok true)
                 (fun r => Address.__contains__ cw (Address.PyAddress r) = Ok true)).
    + apply sublist_filter.
    + intros r Hr. revert Hc Hr.
      rewrite !contains_true_iff, !same_network_iff.
      intros [[_ E1] L1] [[_ E2] L2]. split; [split; [assumption|] | lia].
      rewrite E1. now apply (shiftr_coarser _ _ _ (Address.prefix cn)).
Qed.

Lemma addrs_by_cidr_monotone_witness :
  exists lw ln,
    IPManager.addrs_by_cidr main_store "137.43/16" = Ok lw /\
    IPManager.addrs_by_cidr main_store "137.43.4/24" = Ok ln /\
    ln `sublist_of` lw.
Proof.
  apply (addrs_by_cidr_monotone main_store "137.43/16" "137.43.4/24"
           (Address.mk "137.43/16" "" 2301296640 16 "137.43/16")
           (Address.mk "137.43.4/24" "" 2301297664 24 "137.43.4/24")).
  - reflexivity.
  - reflexivity.
  - reflexivity.
  - simpl. lia.
Defined.

(** * The file and the mapping in step *)

Lemma insert_keeps_denied self a n w w' r :
  IPManager.insert self a n w = (w', r) ->
  denied w' = denied w /\
  (forall self', r = Ok self' -> IPManager._storage_fn self' = IPManager._storage_fn self).
Proof.
  unfold IPManager.insert, append_file.
  destruct (dict_get _ _); [intros H; inversion H; split; [reflexivity | congruence]|].
  destruct (decide _); [intros H; inversion H; split; [reflexivity | congruence]|].
  destruct (Address.__init__ a n); simpl; intros H; inversion H;
    (split; [reflexivity|]); intros self' E; inversion E; reflexivity.
Qed.

Lemma insert_keeps_persisted self a n w w' self' :
  persisted self w -> clean (a, n) ->
  IPManager.insert self a n w = (w', Ok self') ->
  persisted self' w'.
Proof.
  intros (old & Hfile & Hfit & Hload) (Hca & Hcn & Hfa & Hfn) H.
  simpl in Hca, Hcn, Hfa, Hfn. unfold IPManager.insert in H.
  destruct (dict_get (IPManager._storage self) a) eqn:Hnew.
  { inversion H; subst. now exists old. }
  destruct (append_file w (IPManager._storage_fn self) (writerow [a; n]))
    as [w1|] eqn:Happ.
  2:{ inversion H; subst. now exists old. }
  destruct (Address.__init__ a n) as [r|e] eqn:Hr; simpl in H; [|discriminate].
  inversion H; subst w' self'. clear H.
  assert (IPManager._storage_fn self ∉ denied w) as Hperm.
  { unfold append_file in Happ. destruct (decide _); [discriminate | assumption]. }
  rewrite (insert_appends self a n w old Hfile Hperm) in Happ.
  inversion Happ; subst w1. clear Happ.
  exists (old ++ [(a, n)])%list. simpl. split; [|split].
  - rewrite lookup_insert_eq, written_app. simpl. now rewrite append_nil_r.
  - apply Forall_app. split; [assumption|]. repeat constructor; assumption.
  - now apply reload_reads_new_row.
Qed.

Lemma init_persisted fn w w' m :
  IPManager.__init__ fn w = (w', Ok m) ->
  files w !! fn = None \/
  (exists old, files w !! fn = Some (written old) /\ Forall row_fits old) ->
  persisted m w' /\ IPManager._storage_fn m = fn /\ denied w' = denied w /\
  fn ∉ denied w.
Proof.
  unfold IPManager.__init__, append_file. intros H Hfile.
  destruct (decide (fn ∈ denied w)) as [|Hperm]; [inversion H|].
  destruct (IPManager._load_storage fn _) as [st|e] eqn:Hload; simpl in H;
    inversion H; subst w' m. clear H. simpl.
  split; [|auto]. unfold persisted. simpl.
  destruct Hfile as [Hnone | (old & Hsome & Hfit)].
  - exists []. rewrite Hnone in *. simpl in *.
    rewrite lookup_insert_eq. repeat split; [constructor | exact Hload].
  - exists old. rewrite Hsome in *. simpl in *.
    rewrite append_nil_r in *. rewrite lookup_insert_eq.
    repeat split; [assumption | exact Hload].
Qed.

Lemma insert_all_keeps_persisted l : forall self w w' self',
  persisted self w -> Forall clean l ->
  insert_all self l w = (w', Ok self') ->
  persisted self' w' /\ denied w' = denied w /\
  IPManager._storage_fn self' = IPManager._storage_fn self.
Proof.
  induction l as [|[a n] l IH]; intros self w w' self' Hp Hl H; simpl in H.
  - inversion H; subst. auto.
  - inversion Hl as [|? ? Hc Hl']; subst.
    destruct (IPManager.insert self a n w) as [w1 [m|e]] eqn:E; [|inversion H].
    destruct (insert_keeps_denied _ _ _ _ _ _ E) as [Hd Hfn].
    specialize (Hfn m eq_refl).
    destruct (IH m w1 w' self' (insert_keeps_persisted _ _ _ _ _ _ Hp Hc E) Hl' H)
      as (Hp' & Hd' & Hfn').
    split; [assumption|]. split; congruence.
Qed.

Lemma init_on_persisted self w :
  persisted self w -> IPManager._storage_fn self ∉ denied w ->
  IPManager.__init__ (IPManager._storage_fn self) w = (w, Ok self).
Proof.
  intros (old & Hfile & _ & Hload) Hperm.
  unfold IPManager.__init__, append_file.
  destruct (decide _); [contradiction|].
  rewrite Hfile. simpl. rewrite append_nil_r.
  rewrite (insert_id _ _ _ Hfile).
  destruct w as [fs dn out]. simpl in *. rewrite Hload. simpl.
  destruct self. reflexivity.
Qed.

(** X11: the mapping and the file stay in step.  Start a manager on a path
    whose file is missing or holds rows the writer wrote, then run any
    sequence of inserts of rows without carriage returns, within the
    reader's field limit, all of which return.  A manager made afterwards
    from the same path is the very same manager (same keys, records and
    order), and making it changes nothing. *)
Theorem restart_gives_same_manager
    (fn : string) (w0 w1 w2 : World) (m0 m : IPManager.t)
    (l : list (string * string)) :
  files w0 !! fn = None \/
  (exists old, files w0 !! fn = Some (written old) /\ Forall row_fits old) ->
  IPManager.__init__ fn w0 = (w1, Ok m0) ->
  Forall clean l ->
  insert_all m0 l w1 = (w2, Ok m) ->
  IPManager.__init__ fn w2 = (w2, Ok m).
Proof.
  intros Hfile Hinit Hl Hrun.
  destruct (init_persisted _ _ _ _ Hinit Hfile) as (Hp & Hfn & Hd & Hperm).
  destruct (insert_all_keeps_persisted _ _ _ _ _ Hp Hl Hrun) as (Hp' & Hd' & Hfn').
  rewrite <- Hfn, <- Hfn'. apply init_on_persisted; [assumption|].
  rewrite Hfn', Hfn, Hd', Hd. assumption.
Qed.

Lemma restart_gives_same_manager_witness :
  IPManager.__init__ "storage.csv" (fst main) = (fst main, Ok main_store).
Proof.
  apply (restart_gives_same_manager "storage.csv" empty_world
           (mkWorld (<["storage.csv" := ""]> ∅) ∅ []) (fst main)
           (IPManager.mk "storage.csv" []) main_store
           [("137.43.4.18", "host"); ("137.43.4.19", "host");
            ("137.43.4.20/32", "host/cidr"); ("137.43/16", "net")]).
  - left. reflexivity.
  - reflexivity.
  - repeat constructor; vm_compute; discriminate.
  - vm_compute. reflexivity.
Defined.

(** * Loading *)

Lemma load_rows_last l : forall st st' k,
  IPManager.load_rows (rows_of (map (fun an => [fst an; snd an]) l)) st = Ok st' ->
  dict_get st' k
  = match last_note l k with
    | Some n => to_option (Address.__init__ k n)
    | None => dict_get st k
    end.
Proof.
  induction l as [|[a n] l IH]; intros st st' k H; simpl in H.
  - inversion H. reflexivity.
  - destruct (Address.__init__ a n) as [r|e] eqn:Hr; simpl in H; [|discriminate].
    rewrite (IH _ _ k H). simpl.
    destruct (last_note l k); [reflexivity|].
    destruct (String.eqb_spec a k) as [->|Hne].
    + rewrite dict_get_set_eq, Hr. reflexivity.
    + now apply dict_get_set_ne.
Qed.

Lemma as_read_clean l :
  Forall clean l -> map as_read l = map (fun an => [fst an; snd an]) l.
Proof.
  induction 1 as [|[a n] l (Ha & Hn & _) _ IH]; [reflexivity|].
  simpl in *. unfold as_read at 1. simpl.
  now rewrite IH, !universal_newlines_no_cr.
Qed.

Lemma clean_fits l : Forall clean l -> Forall row_fits l.
Proof.
  intros H. eapply Forall_impl; [exact H|]. intros an Hc. apply Hc.
Qed.

(** X12: loading keeps, for every address, the note of its last row.  When
    the file holds written rows without carriage returns and the
    constructor returns a manager, [lookup] of a text gives the record made
    from that text and the note of the last row with that address, and
    nothing for a text no row has. *)
Theorem load_keeps_last_row
    (fn : string) (w w' : World) (m : IPManager.t) (l : list (string * string)) :
  files w !! fn = Some (written l) ->
  Forall clean l ->
  IPManager.__init__ fn w = (w', Ok m) ->
  forall k,
    IPManager.lookup m k
    = match last_note l k with
      | Some n => to_option (Address.__init__ k n)
      | None => None
      end.
Proof.
  intros Hfile Hl H k. unfold IPManager.__init__, append_file in H.
  destruct (decide _); [inversion H|]. rewrite Hfile in H. simpl in H.
  rewrite append_nil_r in H.
  unfold IPManager._load_storage, read_file in H. simpl in H.
  rewrite lookup_insert_eq in H. simpl in H.
  rewrite csv_reader_written in H by (now apply clean_fits).
  rewrite as_read_clean in H by assumption.
  destruct (IPManager.load_rows _ []) as [st|e] eqn:E; simpl in H; inversion H.
  subst. unfold IPManager.lookup. simpl. now rewrite (load_rows_last _ _ _ k E).
Qed.

Lemma load_keeps_last_row_witness :
  let l := [("10.0.0.1", "first"); ("10.0/16", "net"); ("10.0.0.1", "second")] in
  let w := mkWorld {["storage.csv" := written l]} ∅ [] in
  exists w' m,
    IPManager.__init__ "storage.csv" w = (w', Ok m) /\
    IPManager.lookup m "10.0.0.1"
    = Some (Address.mk "10.0.0.1" "second" 167772161 32 "10.0.0.1/32") /\
    IPManager.lookup m "10.0.0.0/16" = None.
Proof.
  intros l w.
  destruct (IPManager.__init__ "storage.csv" w) as [w' [m|e]] eqn:E;
    [|vm_compute in E; discriminate].
  exists w', m. split; [reflexivity|].
  assert (Forall clean l) as Hc by (repeat constructor; vm_compute; discriminate).
  assert (files w !! "storage.csv" = Some (written l)) as Hf by reflexivity.
  pose proof (load_keeps_last_row "storage.csv" w w' m l Hf Hc E) as H.
  split; rewrite H; reflexivity.
Defined.

Lemma join_quoted_text f : forall fs nl rest,
  join (String delimiter "") (map quote_field (f :: fs)) ++ (nl ++ rest)
  = String quotechar (escape_quotes f ++ String quotechar (row_tail fs nl rest)).
Proof.
  intros fs. revert f. induction fs as [|g gs IH]; intros f nl rest.
  - simpl. unfold quote_field. simpl. now rewrite append_assoc.
  - change (map quote_field (f :: g :: gs))
      with (quote_field f :: map quote_field (g :: gs)).
    rewrite join_cons1 by discriminate.
    rewrite append_assoc, append_cons, IH.
    unfold quote_field. simpl. now rewrite append_assoc.
Qed.

Lemma universal_newlines_row_tail fs : forall rest,
  universal_newlines false (row_tail fs lineterminator rest)
  = row_tail (map (universal_newlines false) fs) (String LF "")
      (universal_newlines false rest).
Proof.
  induction fs as [|f fs IH]; intros rest; [reflexivity|].
  simpl row_tail.
  change (universal_newlines false (String delimiter (String quotechar ?x)))
    with (String delimiter (String quotechar (universal_newlines false x))).
  rewrite universal_newlines_app_char by reflexivity.
  now rewrite universal_newlines_escape, IH.
Qed.

Lemma run_row_tail fs : forall acc f rest,
  Forall fits fs ->
  run (mkReader QUOTE_IN_QUOTED_FIELD acc f) true (row_tail fs (String LF "") rest)
  = Row (acc ++ f :: fs) (run parse_reset false rest).
Proof.
  induction fs as [|g gs IH]; intros acc f rest Hfs.
  - reflexivity.
  - inversion Hfs as [|? ? Hg Hgs]; subst.
    simpl row_tail. rewrite run_cons.
    change (parse_process_char (mkReader QUOTE_IN_QUOTED_FIELD acc f) (Some delimiter))
      with (Ok (mkReader START_FIELD (acc ++ [f]) "")).
    change (Ascii.eqb delimiter LF) with false. cbv iota.
    rewrite run_cons.
    change (parse_process_char (mkReader START_FIELD (acc ++ [f]) "") (Some quotechar))
      with (Ok (mkReader IN_QUOTED_FIELD (acc ++ [f]) "")).
    change (Ascii.eqb quotechar LF) with false. cbv iota.
    rewrite run_quoted by exact Hg.
    rewrite IH by assumption. now rewrite <- app_assoc.
Qed.

Lemma run_written_row fs rest :
  Forall fits (map (universal_newlines false) fs) ->
  run parse_reset false (universal_newlines false (writerow fs ++ rest))
  = Row (map (universal_newlines false) fs)
        (run parse_reset false (universal_newlines false rest)).
Proof.
  intros Hfs. destruct fs as [|f fs].
  - reflexivity.
  - unfold writerow. rewrite append_assoc, join_quoted_text.
    change (universal_newlines false (String quotechar ?x))
      with (String quotechar (universal_newlines false x)).
    rewrite universal_newlines_app_char by reflexivity.
    rewrite universal_newlines_escape, universal_newlines_row_tail.
    inversion Hfs as [|? ? Hf Hfs']; subst.
    rewrite run_cons.
    change (parse_process_char parse_reset (Some quotechar))
      with (Ok (mkReader IN_QUOTED_FIELD [] "")).
    change (Ascii.eqb quotechar LF) with false. cbv iota.
    rewrite run_quoted by exact Hf.
    now rewrite run_row_tail.
Qed.

Lemma csv_reader_written_rows rows :
  Forall (Forall fits) rows ->
  csv_reader (readlines (universal_newlines false (written_rows rows)))
  = rows_of (map (map (universal_newlines false)) rows).
Proof.
  intros H. rewrite csv_reader_run.
  induction H as [|row rows Hrow _ IH]; [reflexivity|].
  simpl written_rows. rewrite run_written_row.
  - rewrite IH. reflexivity.
  - apply Forall_fmap. eapply Forall_impl; [exact Hrow|].
    intros f Hf. now apply fits_universal_newlines.
Qed.

Lemma load_rows_ok_iff rs : forall st,
  (exists st', IPManager.load_rows (rows_of rs) st = Ok st') <->
  Forall loadable_row rs.
Proof.
  induction rs as [|row rs IH]; intros st.
  - split; [constructor | intros _; now exists st].
  - simpl. split.
    + intros [st' H].
      destruct row as [|a [|n [|x row]]]; try discriminate.
      destruct (Address.__init__ a n) as [r|e] eqn:Hr; simpl in H; [|discriminate].
      constructor; [now exists a, n, r | apply (IH (dict_set st a r)); eauto].
    + intros H. inversion H as [|? ? (a & n & r & -> & Hr) Hrs]; subst.
      rewrite Hr. simpl. now apply IH.
Qed.

Lemma load_rows_error rs : forall st e,
  IPManager.load_rows (rows_of rs) st = Raise e ->
  e = StorageLoadError \/ e = InvalidAddressFormat \/ e = InvalidPrefixFormat.
Proof.
  induction rs as [|row rs IH]; intros st e H; simpl in H; [discriminate|].
  destruct row as [|a [|n [|x row]]]; try (inversion H; tauto).
  unfold Address.__init__ in H. destruct (Address.split_prefix a) as [v p].
  destruct (inet_aton _); [|inversion H; tauto].
  destruct (py_int p); [|inversion H; tauto].
  simpl in H. eauto.
Qed.

(** X13: which files load.  For a file that holds written rows, of any
    number of fields, all within the reader's field limit, the constructor
    returns a manager exactly when every row, as read back, has two fields
    of which the first is an address [Address] accepts.  Otherwise it raises
    the unpacking error or the error of the address or of the prefix, never
    an error of the reader; either way the file is left as it was. *)
Theorem init_loads_iff_rows_loadable
    (fn : string) (w : World) (rows : list (list string)) :
  files w !! fn = Some (written_rows rows) ->
  Forall (Forall fits) rows ->
  fn ∉ denied w ->
  ((exists m, IPManager.__init__ fn w = (w, Ok m)) <->
   Forall loadable_row (map (map (universal_newlines false)) rows)) /\
  (forall w' e, IPManager.__init__ fn w = (w', Raise e) ->
     w' = w /\
     (e = StorageLoadError \/ e = InvalidAddressFormat \/ e = InvalidPrefixFormat)).
Proof.
  intros Hfile Hfit Hperm.
  assert (IPManager.__init__ fn w
          = (w, st ← IPManager.load_rows
                       (rows_of (map (map (universal_newlines false)) rows)) [];
                Ok (IPManager.mk fn st))) as E.
  { unfold IPManager.__init__, append_file.
    destruct (decide _); [contradiction|].
    rewrite Hfile. simpl. rewrite append_nil_r, (insert_id _ _ _ Hfile).
    destruct w as [fs dn out]. simpl in *.
    unfold IPManager._load_storage, read_file. simpl. rewrite Hfile. simpl.
    now rewrite csv_reader_written_rows. }
  rewrite E. split.
  - rewrite <- (load_rows_ok_iff _ []). split.
    + intros [m H]. inversion H as [H'].
      destruct (IPManager.load_rows _ []) as [st|e]; [eauto | discriminate].
    + intros [st H]. rewrite H. eauto.
  - intros w' e H. inversion H as [[Hw H']]. split; [reflexivity|].
    destruct (IPManager.load_rows _ []) as [st|e'] eqn:El; simpl in H';
      [discriminate|].
    inversion H'; subst. eapply load_rows_error. exact El.
Qed.

Lemma init_loads_iff_rows_loadable_witness :
  let rows := [["10.0.0.1"; "host"]; []; ["10.0/16"; "net"]] in
  let w := mkWorld {["storage.csv" := written_rows rows]} ∅ [] in
  IPManager.__init__ "storage.csv" w = (w, Raise StorageLoadError) /\
  ~ Forall loadable_row (map (map (universal_newlines false)) rows).
Proof.
  intros rows w.
  assert (files w !! "storage.csv" = Some (written_rows rows)) as Hf by reflexivity.
  assert (Forall (Forall fits) rows) as Hfit
    by (repeat constructor; vm_compute; discriminate).
  assert ("storage.csv" ∉ denied w) as Hp by (simpl; set_solver).
  destruct (init_loads_iff_rows_loadable "storage.csv" w rows Hf Hfit Hp) as [Hiff _].
  split; [vm_compute; reflexivity|].
  intros H. apply Hiff in H as [m H]. vm_compute in H. discriminate.
Defined.

(** * What the operations leave alone *)

(** X14: [insert] only ever appends and adds.  Whatever the arguments and
    whatever the outcome, the files at other paths are untouched, the file of
    the manager keeps its old content as a prefix, and what was printed
    before stays; and when [insert] returns, every entry the manager had is
    still there with the same record, under the same file name. *)
Theorem insert_only_appends
    (self : IPManager.t) (address note : string) (w : World) :
  let (w', r) := IPManager.insert self address note w in
  let fn := IPManager._storage_fn self in
  denied w' = denied w /\
  (forall other, other <> fn -> files w' !! other = files w !! other) /\
  (exists suffix,
     default "" (files w' !! fn) = default "" (files w !! fn) ++ suffix) /\
  (exists out, stdout w' = (stdout w ++ out)%list) /\
  (forall self', r = Ok self' ->
     IPManager._storage_fn self' = fn /\
     forall k r0, IPManager.lookup self k = Some r0 ->
                  IPManager.lookup self' k = Some r0).
Proof.
  assert (forall (w1 : World) (out : list string),
            files w1 = files w -> denied w1 = denied w ->
            stdout w1 = (stdout w ++ out)%list ->
            let fn := IPManager._storage_fn self in
            denied w1 = denied w /\
            (forall other, other <> fn -> files w1 !! other = files w !! other) /\
            (exists suffix,
               default "" (files w1 !! fn) = default "" (files w !! fn) ++ suffix) /\
            (exists out, stdout w1 = (stdout w ++ out)%list) /\
            (forall self', Ok self = Ok self' ->
               IPManager._storage_fn self' = fn /\
               forall k r0, IPManager.lookup self k = Some r0 ->
                            IPManager.lookup self' k = Some r0)) as Hsame.
  { intros w1 out Hf Hd Ho fn. rewrite Hf. split; [assumption|].
    split; [reflexivity|]. split; [exists ""; now rewrite append_nil_r|].
    split; [now exists out|]. intros self' E. inversion E; subst. auto. }
  unfold IPManager.insert, append_file.
  destruct (dict_get (IPManager._storage self) address) eqn:Hnew.
  { now apply (Hsame _ [skip_message address]). }
  destruct (decide _) as [Hd|Hd].
  { now apply (Hsame _ [str_of_error (IPManager._storage_fn self)]). }
  clear Hsame. simpl. split; [reflexivity|]. split; [|split; [|split]].
  - intros other Hne. now apply lookup_insert_ne.
  - eexists. rewrite lookup_insert_eq. reflexivity.
  - exists []. now rewrite app_nil_r.
  - intros self' E.
    destruct (Address.__init__ address note) as [a|e]; simpl in E; inversion E.
    simpl. split; [reflexivity|]. unfold IPManager.lookup. simpl.
    intros k r0 Hk. rewrite dict_get_set_ne; [assumption|].
    intros ->. congruence.
Qed.

(** X15: the constructor of the manager touches the file system only to
    create a missing file.  It never prints and never changes another path;
    an existing file keeps its content whether or not it loads; a missing
    file is created empty and gives the empty manager; and when the open is
    refused the error is raised with nothing changed. *)
Theorem init_only_creates (fn : string) (w : World) :
  let (w', r) := IPManager.__init__ fn w in
  denied w' = denied w /\ stdout w' = stdout w /\
  (forall other, other <> fn -> files w' !! other = files w !! other) /\
  (forall c, files w !! fn = Some c -> files w' = files w) /\
  (files w !! fn = None -> fn ∉ denied w ->
   files w' !! fn = Some "" /\ r = Ok (IPManager.mk fn [])) /\
  (fn ∈ denied w -> w' = w /\ r = Raise (IOFailure fn)).
Proof.
  unfold IPManager.__init__, append_file.
  destruct (decide (fn ∈ denied w)) as [Hd|Hd].
  { repeat split; try reflexivity; contradiction. }
  simpl. split; [reflexivity|]. split; [reflexivity|].
  split; [|split; [|split]].
  - intros other Hne. now apply lookup_insert_ne.
  - intros c Hc. rewrite Hc. simpl. rewrite append_nil_r. now apply insert_id.
  - intros Hnone _. rewrite lookup_insert_eq, Hnone. split; [reflexivity|].
    unfold IPManager._load_storage, read_file. simpl.
    rewrite lookup_insert_eq. reflexivity.
  - contradiction.
Qed.

(** * Equivalent address texts *)

Lemma normalize_no_slash v :
  has_char "/" v = false -> has_char "/" (Address._normalize_addr v) = false.
Proof.
  intros H. unfold Address._normalize_addr. apply join_no_char; [reflexivity|].
  apply Forall_app. split; [now apply split_parts_no_char|].
  apply List.Forall_forall. intros x Hx. apply repeat_spec in Hx. now subst.
Qed.

Lemma split_prefix_value_no_slash a :
  has_char "/" (fst (Address.split_prefix a)) = false.
Proof.
  unfold Address.split_prefix. pose proof (split_once_spec "/" a) as H.
  destruct (split_once "/" a) as [[v p]|]; simpl; [apply H | exact H].
Qed.

(** X16: the padded text denotes the same block.  For every text the
    constructor accepts, the text made of the zero-padded value part, a
    slash and the same prefix token is accepted too, and gives the same
    numeric value and the same prefix, with the padded text as its canonical
    form; with a prefix of at most 32 each of the two records contains
    the other.  (As keys of the store the two texts stay different.) *)
Theorem padded_text_is_same_block (a n : string) (r : Address.t) :
  Address.__init__ a n = Ok r ->
  let (v, p) := Address.split_prefix a in
  let padded := Address._normalize_addr v ++ "/" ++ p in
  exists r',
    Address.__init__ padded n = Ok r' /\
    Address.value r' = Address.value r /\
    Address.prefix r' = Address.prefix r /\
    Address.cidr r' = padded /\
    (4 <= List.length (split "." (Address._normalize_addr v)))%nat /\
    (Address.prefix r <= 32 ->
     Address.__contains__ r (Address.PyAddress r') = Ok true /\
     Address.__contains__ r' (Address.PyAddress r) = Ok true).
Proof.
  intros H. pose proof (split_prefix_value_no_slash a) as Hv.
  apply init_inv in H as (b & q & Hb & Hq & ->).
  destruct (Address.split_prefix a) as [v p].
  simpl in Hv, Hb, Hq. cbv beta iota zeta.
  assert (Address.split_prefix (Address._normalize_addr v ++ "/" ++ p)
          = (Address._normalize_addr v, p)) as Hsp.
  { unfold Address.split_prefix.
    change (Address._normalize_addr v ++ "/" ++ p)
      with (Address._normalize_addr v ++ String "/" p).
    rewrite split_once_app by (now apply normalize_no_slash). reflexivity. }
  exists (Address.mk (Address._normalize_addr v ++ "/" ++ p) n (unpack_be b) q
            (Address._normalize_addr v ++ "/" ++ p)).
  split.
  { unfold Address.__init__. rewrite Hsp.
    rewrite (normalize_full (Address._normalize_addr v)) by apply normalize_length.
    rewrite Hb, Hq. reflexivity. }
  split; [reflexivity|]. split; [reflexivity|]. split; [reflexivity|].
  split; [apply normalize_length|].
  intros Hp. split; rewrite contains_eval by exact Hp; simpl;
    now rewrite Z.eqb_refl, Z.leb_refl.
Qed.

Lemma padded_text_is_same_block_witness :
  exists r',
    Address.__init__ "137.43.0.0/16" "net" = Ok r' /\
    Address.value r' = Address.value net16 /\
    Address.prefix r' = Address.prefix net16 /\
    Address.cidr r' = "137.43.0.0/16" /\
    (4 <= List.length (split "." (Address._normalize_addr "137.43")))%nat /\
    (Address.prefix net16 <= 32 ->
     Address.__contains__ net16 (Address.PyAddress r') = Ok true /\
     Address.__contains__ r' (Address.PyAddress net16) = Ok true).
Proof.
  exact (padded_text_is_same_block "137.43/16" "net" net16 eq_refl).
Defined.

(** * Searching by note, again *)

Lemma substring_of_trans s1 s2 t :
  substring_of s1 s2 -> substring_of s2 t -> substring_of s1 t.
Proof.
  intros (pre1 & post1 & ->) (pre2 & post2 & ->).
  exists (pre2 ++ pre1), (post1 ++ post2). now rewrite !append_assoc.
Qed.

(** X17: a longer search text narrows the result.  If one text occurs in a
    second one, what [addrs_by_note] returns for the second is a sublist, in
    the same order, of what it returns for the first; and every result is a
    stored record, listed in the order of the dict. *)
Theorem addrs_by_note_monotone (self : IPManager.t) (s1 s2 : string) :
  substring_of s1 s2 ->
  IPManager.addrs_by_note self s2 `sublist_of` IPManager.addrs_by_note self s1 /\
  IPManager.addrs_by_note self s1 `sublist_of` dict_values (IPManager._storage self).
Proof.
  intros Hs. unfold IPManager.addrs_by_note. split; [|apply sublist_filter].
  rewrite <- (list_filter_filter_l
               (fun r => str_contains s2 (Address.note r) = true)
               (fun r => str_contains s1 (Address.note r) = true)).
  - apply sublist_filter.
  - intros r Hr. apply str_contains_spec. apply str_contains_spec in Hr.
    eapply substring_of_trans; eassumption.
Qed.

Lemma addrs_by_note_monotone_witness :
  IPManager.addrs_by_note main_store "host/c"
    `sublist_of` IPManager.addrs_by_note main_store "host" /\
  IPManager.addrs_by_note main_store "host"
    `sublist_of` dict_values (IPManager._storage main_store).
Proof.
  apply addrs_by_note_monotone. exists "", "/c". reflexivity.
Defined.

(** * The text of a record *)

Lemma append_inj_r (p x y : string) : p ++ x = p ++ y -> x = y.
Proof. induction p as [|c p IH]; simpl; intros H; [exact H | inversion H; auto]. Qed.

Lemma first_char_splits c (x y r r' : string) :
  has_char c x = false -> has_char c y = false ->
  x ++ String c r = y ++ String c r' -> x = y /\ r = r'.
Proof.
  revert y. induction x as [|a x IH]; intros [|b y] Hx Hy H; simpl in *.
  - inversion H. auto.
  - inversion H; subst. rewrite Ascii.eqb_refl in Hy. discriminate.
  - inversion H; subst. rewrite Ascii.eqb_refl in Hx. discriminate.
  - inversion H; subst. apply orb_false_iff in Hx as [_ Hx].
    apply orb_false_iff in Hy as [_ Hy].
    destruct (IH y Hx Hy H2) as [-> ->]. auto.
Qed.

(** X18: when the text of a record is unambiguous.  Two records of the
    constructor whose address texts hold no quote character and which have
    the same text are the same record.  Without that condition the text
    does not tell records apart: an address may hold anything after a
    blank, a quote included, and two different records can have the same
    text. *)
Theorem str_identifies_record :
  (forall r1 r2,
     constructed r1 -> constructed r2 ->
     has_char "'" (Address.addr r1) = false ->
     has_char "'" (Address.addr r2) = false ->
     __str__ r1 = __str__ r2 -> r1 = r2) /\
  (exists r1 r2,
     Address.__init__ "1 ', prefix='32', note='a" "b" = Ok r1 /\
     Address.__init__ "1 " "a', prefix='32', note='b" = Ok r2 /\
     __str__ r1 = __str__ r2 /\ r1 <> r2).
Proof.
  split.
  - intros r1 r2 (a1 & n1 & H1) (a2 & n2 & H2) Q1 Q2 E.
    pose proof H1 as I1. pose proof H2 as I2.
    apply init_inv in I1 as (b1 & p1 & Hb1 & Hp1 & ->).
    apply init_inv in I2 as (b2 & p2 & Hb2 & Hp2 & ->).
    simpl in Q1, Q2. unfold __str__ in E. simpl in E.
    apply (append_inj_r "<Address(addr='") in E.
    change ("', prefix='" ++ ?x) with (String "'" (", prefix='" ++ x)) in E.
    apply first_char_splits in E as [-> E]; [|assumption..].
    rewrite Hb1 in Hb2. inversion Hb2; subst b2.
    rewrite Hp1 in Hp2. inversion Hp2; subst p2.
    apply (append_inj_r (", prefix='" ++ pretty p1)) in E
      || (rewrite <- !append_assoc in E;
          apply (append_inj_r (", prefix='" ++ pretty p1)) in E).
    apply (append_inj_r "', note='") in E.
    apply append_inj_l in E. now subst.
  - do 2 eexists. split; [vm_compute; reflexivity|].
    split; [vm_compute; reflexivity|]. split; [vm_compute; reflexivity | discriminate].
Qed.

(** * The script *)

Lemma load_storage_files fn w1 w2 :
  files w1 = files w2 ->
  IPManager._load_storage fn w1 = IPManager._load_storage fn w2.
Proof.
  intros H. unfold IPManager._load_storage, read_file. now rewrite H.
Qed.

Lemma persisted_files m w1 w2 :
  files w1 = files w2 -> persisted m w1 -> persisted m w2.
Proof.
  intros Hf (old & H1 & H2 & H3). exists old.
  rewrite <- Hf, <- (load_storage_files _ w1 w2 Hf). auto.
Qed.

Lemma print_all_frame l : forall w,
  files (print_all w l) = files w /\ denied (print_all w l) = denied w.
Proof.
  unfold print_all. induction l as [|r l IH]; intros w; simpl; [auto|].
  destruct (IH (print w (__str__ r))) as [-> ->]. auto.
Qed.

Lemma report_returns m w :
  exists w', report m w = (w', Ok tt) /\ files w' = files w /\ denied w' = denied w.
Proof.
  unfold report, IPManager.addrs_by_cidr.
  change (Address.__init__ "137.43.4/24" "")
    with (Ok (Address.mk "137.43.4/24" "" 2301297664 24 "137.43.4/24")).
  simpl mbind. rewrite select_in_filter by (simpl; lia).
  eexists. split; [reflexivity|].
  split.
  - rewrite (proj1 (print_all_frame _ _)). simpl.
    now rewrite (proj1 (print_all_frame _ _)).
  - rewrite (proj2 (print_all_frame _ _)). simpl.
    now rewrite (proj2 (print_all_frame _ _)).
Qed.

Lemma insert_returns m a n w r :
  Address.__init__ a n = Ok r ->
  exists w' m',
    IPManager.insert m a n w = (w', Ok m') /\
    (IPManager._storage_fn m ∉ denied w -> is_Some (IPManager.lookup m' a)) /\
    (forall k, is_Some (IPManager.lookup m k) -> is_Some (IPManager.lookup m' k)).
Proof.
  intros Hr. unfold IPManager.insert, IPManager.lookup, append_file.
  destruct (dict_get (IPManager._storage m) a) eqn:Hnew.
  { do 2 eexists. split; [reflexivity|]. split; [intros _; now rewrite Hnew | auto]. }
  destruct (decide _) as [Hd|Hd].
  { do 2 eexists. split; [reflexivity|]. split; [contradiction | auto]. }
  rewrite Hr. do 2 eexists. split; [reflexivity|]. simpl. split.
  - intros _. rewrite dict_get_set_eq. eauto.
  - intros k Hk. destruct (String.eqb_spec a k) as [->|Hne].
    + rewrite dict_get_set_eq. eauto.
    + now rewrite dict_get_set_ne.
Qed.

Lemma insert_all_returns l : forall m w,
  Forall (fun an => exists r, Address.__init__ (fst an) (snd an) = Ok r) l ->
  IPManager._storage_fn m ∉ denied w ->
  exists w' m',
    insert_all m l w = (w', Ok m') /\
    Forall (fun an => is_Some (IPManager.lookup m' (fst an))) l /\
    (forall k, is_Some (IPManager.lookup m k) -> is_Some (IPManager.lookup m' k)).
Proof.
  induction l as [|[a n] l IH]; intros m w Hl Hperm.
  - exists w, m. repeat split; [constructor | auto].
  - inversion Hl as [|? ? [r Hr] Hl']; subst. simpl in Hr.
    destruct (insert_returns m a n w r Hr) as (w1 & m1 & E & Hin & Hkeep).
    destruct (insert_keeps_denied _ _ _ _ _ _ E) as [Hd Hfn].
    specialize (Hfn m1 eq_refl).
    destruct (IH m1 w1 Hl') as (w' & m' & E' & Hall & Hkeep').
    { rewrite Hfn, Hd. exact Hperm. }
    exists w', m'. simpl. rewrite E. split; [exact E'|]. split.
    + constructor; [|exact Hall]. simpl. apply Hkeep'. now apply Hin.
    + intros k Hk. apply Hkeep'. now apply Hkeep.
Qed.

Lemma insert_all_skips l : forall m w,
  Forall (fun an => is_Some (IPManager.lookup m (fst an))) l ->
  exists w', insert_all m l w = (w', Ok m) /\ files w' = files w.
Proof.
  induction l as [|[a n] l IH]; intros m w Hl.
  - now exists w.
  - inversion Hl as [|? ? [r Hr] Hl']; subst. simpl in Hr.
    simpl. unfold IPManager.insert. unfold IPManager.lookup in Hr. rewrite Hr.
    destruct (IH m (print w (skip_message a)) Hl') as (w' & E & Hf).
    exists w'. split; [exact E | exact Hf].
Qed.

Lemma script_rows_valid :
  Forall (fun an => exists r, Address.__init__ (fst an) (snd an) = Ok r) script_rows.
Proof. repeat constructor; eexists; vm_compute; reflexivity. Qed.

Lemma script_rows_clean : Forall clean script_rows.
Proof. repeat constructor; vm_compute; discriminate. Qed.

(** X19: the script can be run again and again.  From any state of the
    environment in which [storage.csv] can be opened and is missing, or
    holds written rows without carriage returns that load, the script runs
    to its end; its four addresses are then keys of the manager; and a
    second run ends with the very same manager and leaves every file as the
    first run left it (its four inserts are skipped). *)
Theorem script_is_repeatable (w : World) (old : list (string * string)) :
  "storage.csv" ∉ denied w ->
  files w !! "storage.csv" = None \/
  (files w !! "storage.csv" = Some (written old) /\ Forall clean old /\
   exists st, IPManager._load_storage "storage.csv" w = Ok st) ->
  exists w1 m,
    script w = (w1, Ok m) /\
    Forall (fun an => is_Some (IPManager.lookup m (fst an))) script_rows /\
    IPManager.__init__ "storage.csv" w1 = (w1, Ok m) /\
    exists w2, script w1 = (w2, Ok m) /\ files w2 = files w1.
Proof.
  intros Hperm Hfile.
  assert (exists w0 m0, IPManager.__init__ "storage.csv" w = (w0, Ok m0)) as (w0 & m0 & Hinit).
  { unfold IPManager.__init__, append_file.
    destruct (decide _); [contradiction|].
    destruct Hfile as [Hnone | (Hsome & _ & st & Hst)].
    - rewrite Hnone. unfold IPManager._load_storage, read_file. simpl.
      rewrite lookup_insert_eq. simpl. eauto.
    - rewrite Hsome. simpl. rewrite append_nil_r, (insert_id _ _ _ Hsome).
      destruct w as [fs dn out]. simpl in *. rewrite Hst. simpl. eauto. }
  assert (files w !! "storage.csv" = None \/
          (exists old, files w !! "storage.csv" = Some (written old) /\
                       Forall row_fits old)) as Hfile'.
  { destruct Hfile as [H | (H & Hc & _)]; [now left | right].
    exists old. split; [exact H | now apply clean_fits]. }
  destruct (init_persisted _ _ _ _ Hinit Hfile') as (Hp0 & Hfn0 & Hd0 & _).
  destruct (insert_all_returns script_rows m0 w0 script_rows_valid)
    as (wa & m & Hrun & Hkeys & _).
  { rewrite Hfn0, Hd0. exact Hperm. }
  destruct (insert_all_keeps_persisted _ _ _ _ _ Hp0 script_rows_clean Hrun)
    as (Hp & Hd & Hfn).
  destruct (report_returns m wa) as (w1 & Hrep & Hf1 & Hd1).
  assert (persisted m w1) as Hp1 by (eapply persisted_files; [symmetry|]; eassumption).
  assert (IPManager._storage_fn m = "storage.csv") as Hfnm by congruence.
  assert ("storage.csv" ∉ denied w1) as Hperm1 by (rewrite Hd1, Hd, Hd0; exact Hperm).
  assert (IPManager.__init__ "storage.csv" w1 = (w1, Ok m)) as Hinit1.
  { rewrite <- Hfnm. apply init_on_persisted; [exact Hp1 | now rewrite Hfnm]. }
  exists w1, m. split; [|split; [exact Hkeys | split; [exact Hinit1|]]].
  - unfold script. rewrite Hinit, Hrun, Hrep. reflexivity.
  - destruct (insert_all_skips script_rows m w1 Hkeys) as (wb & Hskip & Hfb).
    destruct (report_returns m wb) as (w2 & Hrep2 & Hf2 & _).
    exists w2. split; [|congruence].
    unfold script. rewrite Hinit1, Hskip, Hrep2. reflexivity.
Qed.

Lemma script_is_repeatable_witness :
  exists w1 m,
    script empty_world = (w1, Ok m) /\
    Forall (fun an => is_Some (IPManager.lookup m (fst an))) script_rows /\
    IPManager.__init__ "storage.csv" w1 = (w1, Ok m) /\
    exists w2, script w1 = (w2, Ok m) /\ files w2 = files w1.
Proof.
  apply (script_is_repeatable empty_world []).
  - simpl. set_solver.
  - left. reflexivity.
Defined.
